(** * UPC-A barcode generator: the batch rendering pipeline of
    [BarcodeGenerator.jsx], embedded and verified.

    The development follows the component leaf first: the validator, the
    dimension mapper, the renderer, the batch scheduler, the exporter and
    the session (the React state and its handlers).

    Modelling conventions.
    - A JavaScript string is a [string]; each character stands for one
      code unit, so [String.length] is [.length].  Code units above 255
      are outside the model.
    - Integral JavaScript numbers (pixel sizes, offsets) are [Z]; array
      indices and counters are [nat]; the sizes in centimetres are IEEE
      binary64 values ([float]), which is what a JavaScript number is.
    - [null] is [None].
    - The libraries the component calls (JsBarcode, the canvas and DOM
      serialisers, [parseFloat]) are the fields of the class [Host]. *)

From Stdlib Require Import ZArith Floats Lia Ascii String.
From stdpp Require Import base option list strings pretty gmap.

Set Warnings "-inexact-float,-register-all,-clear-no-such-hyp".

Local Open Scope Z_scope.

(* ================================================================== *)
(** * JavaScript string helpers *)

Module JsString.

(** [s.split(sep)] for a one-character separator: never empty. *)
Fixpoint split (sep : ascii) (s : string) : list string :=
  match s with
  | EmptyString => [EmptyString]
  | String c r =>
      if Ascii.eqb c sep then EmptyString :: split sep r
      else match split sep r with
           | h :: t => String c h :: t
           | [] => [String c EmptyString]
           end
  end.

(** White space and line terminators removed by [trim], among the code
    units a [string] character can hold: TAB, LF, VT, FF, CR, SP, NBSP. *)
Definition is_space (c : ascii) : bool :=
  let n := nat_of_ascii c in
  (Nat.leb 9 n && Nat.leb n 13) || Nat.eqb n 32 || Nat.eqb n 160.

Fixpoint trimStart (s : string) : string :=
  match s with
  | EmptyString => EmptyString
  | String c r => if is_space c then trimStart r else s
  end.

Definition reverse (s : string) : string :=
  string_of_list_ascii (rev (list_ascii_of_string s)).

Definition trimEnd (s : string) : string := reverse (trimStart (reverse s)).

Definition trim (s : string) : string := trimEnd (trimStart s).

(** Truthiness of a nullable string: neither [null] nor empty. *)
Definition truthy (o : option string) : bool :=
  match o with
  | Some (String _ _) => true
  | _ => false
  end.

End JsString.

(* ================================================================== *)
(** * Data model *)

(** A code entry, as built by [handleFileUpload]. *)
Record Entry := mkEntry {
  number : string;
  valid : bool;
  error : option string;
  dataUrl : option string;
  svgString : option string
}.

Record Progress := mkProgress { current : nat; total : nat }.

Inductive Format := png | svg.

Definition extension (f : Format) : string :=
  match f with png => "png" | svg => "svg" end.

Definition BATCH_SIZE : nat := 50.
Definition CM_TO_PIXEL : float := 118.11%float.
Definition DEFAULT_WIDTH_CM : float := 2.2%float.
Definition DEFAULT_HEIGHT_CM : float := 0.9557%float.
Definition ASPECT_RATIO : float := (DEFAULT_WIDTH_CM / DEFAULT_HEIGHT_CM)%float.

(** [barcodes.filter(b => b.valid).length] *)
Definition validCount (barcodes : list Entry) : nat :=
  length (filter (fun b => valid b = true) barcodes).

(* ================================================================== *)
(** * Validator *)

Module Validator.

(** The character class [\d]: the ten ASCII digits. *)
Definition is_digit (c : ascii) : bool :=
  let n := nat_of_ascii c in Nat.leb 48 n && Nat.leb n 57.

(** [\d{n}] matched at the head of [s]; the result is what is left. *)
Fixpoint match_digits (n : nat) (s : string) : option string :=
  match n with
  | O => Some s
  | S k =>
      match s with
      | String c r => if is_digit c then match_digits k r else None
      | EmptyString => None
      end
  end.

(** [/^\d{12}$/.test(barcode)]: twelve digits from the start, then the
    end of the input. *)
Definition validateBarcode (barcode : string) : bool :=
  match match_digits 12 barcode with
  | Some EmptyString => true
  | _ => false
  end.

(** The callback of [lines.map] in [handleFileUpload]. *)
Definition processLine (line : string) : Entry :=
  let isValid := validateBarcode line in
  {| number := line;
     valid := isValid;
     error := if isValid then None
              else Some ("Invalid: " +:+
                         (if negb (Nat.eqb (String.length line) 12)
                          then "must be 12 digits"
                          else "must contain only numbers"));
     dataUrl := None;
     svgString := None |}.

(** [text.split('\n').map(line => line.trim()).filter(line => line.length > 0)] *)
Definition lines (text : string) : list string :=
  filter (fun line => (0 < String.length line)%nat)
         (JsString.trim <$> JsString.split "010"%char text).

Definition processedBarcodes (text : string) : list Entry :=
  processLine <$> lines text.

End Validator.

(* ================================================================== *)
(** * Dimension mapper *)

Module Mapper.

(** [Math.round] on a finite binary64 value [n * 2^e]: the integer
    [floor (n * 2^e + 1/2)] (ties go towards plus infinity).  [None]
    stands for the non-integral results NaN and the infinities. *)
Definition Math_round (x : float) : option Z :=
  match Prim2SF x with
  | S754_zero _ => Some 0
  | S754_finite s m e =>
      let n := if s then Z.neg m else Z.pos m in
      Some (if 0 <=? e then n * 2 ^ e
            else (2 * n + 2 ^ (- e)) / 2 ^ (- e + 1))
  | _ => None
  end.

Record Dimensions := mkDimensions {
  widthPx : Z;
  heightPx : Z;
  widthCm : float;
  heightCm : float
}.

(** The [useMemo] value [dimensions]. *)
Definition dimensions (widthCm heightCm : float) : option Dimensions :=
  match Math_round (widthCm * CM_TO_PIXEL)%float,
        Math_round (heightCm * CM_TO_PIXEL)%float with
  | Some w, Some h => Some (mkDimensions w h widthCm heightCm)
  | _, _ => None
  end.

Record BarcodeOptions := mkBarcodeOptions {
  format : string;
  displayValue : bool;
  width : Z;
  height : Z;
  margin : Z;
  fontSize : Z
}.

(** The head of [generateSingleBarcode], up to [barcodeOptions].  On
    integers [Math.floor (a / b)] with [b > 0] is [Z.div]. *)
Definition barcodeOptions (widthPx heightPx : Z) (showNum : bool)
  : BarcodeOptions :=
  let margin := 10 in
  let upcModules := 95 in
  let totalModules := upcModules + 2 * margin in
  let barWidth := Z.max 1 (widthPx / totalModules) in
  let fontSize := if showNum then Z.max 14 (heightPx / 10) else 0 in
  let barHeight := heightPx - fontSize - 2 * margin - 5 in
  {| format := "UPC";
     displayValue := showNum;
     width := barWidth;
     height := barHeight;
     margin := margin;
     fontSize := fontSize |}.

End Mapper.

(* ================================================================== *)
(** * Renderer *)

Module Renderer.
Import Mapper.

(** ** Canvas: a size, the current transformation matrix of its 2D
    context, and the drawing calls made on the context, in order.  A
    fresh context has the identity matrix; the encoder is free to leave
    another one.  Each call records the context state it reads
    ([fillStyle], [imageSmoothingEnabled], the matrix): a rectangle or an
    image is painted where the matrix sends it.  The entries of a matrix
    are integers, as those of a translation by whole pixels are.  The
    other context state (clip, alpha, compositing) and the limits a
    browser puts on canvas sizes are not modelled. *)
Record Matrix := mkMatrix {
  m_a : Z; m_b : Z; m_c : Z; m_d : Z; m_e : Z; m_f : Z
}.

Definition identity_matrix : Matrix := mkMatrix 1 0 0 1 0 0.

(** The matrix after [ctx.translate(tx, ty)] on a fresh context. *)
Definition translation (tx ty : Z) : Matrix := mkMatrix 1 0 0 1 tx ty.

Inductive Canvas :=
| mkCanvas (cwidth cheight : Z) (transform : Matrix) (ops : list DrawOp)
with DrawOp :=
| FillRect (fillStyle : string) (transform : Matrix) (x y w h : Z)
| DrawImage (image : Canvas) (transform : Matrix) (dx dy : Z)
            (imageSmoothingEnabled : bool)
(* what the encoder itself paints for a text under given options *)
| Bars (text : string) (options : BarcodeOptions).

Definition cwidth (c : Canvas) : Z := let (w, _, _, _) := c in w.
Definition cheight (c : Canvas) : Z := let (_, h, _, _) := c in h.
Definition getTransform (c : Canvas) : Matrix := let (_, _, m, _) := c in m.
Definition ops (c : Canvas) : list DrawOp := let (_, _, _, o) := c in o.

(** [document.createElement('canvas')] with [width] and [height] set. *)
Definition createCanvas (w h : Z) : Canvas :=
  mkCanvas w h identity_matrix [].

Definition draw (op : DrawOp) (c : Canvas) : Canvas :=
  mkCanvas (cwidth c) (cheight c) (getTransform c) (ops c ++ [op]).

(** [ctx.fillStyle = fillStyle; ctx.fillRect(x, y, w, h)] *)
Definition fillRect (fillStyle : string) (x y w h : Z) (c : Canvas) : Canvas :=
  draw (FillRect fillStyle (getTransform c) x y w h) c.

(** [ctx.imageSmoothingEnabled = smoothing; ctx.drawImage(image, dx, dy)] *)
Definition drawImage (image : Canvas) (dx dy : Z) (smoothing : bool)
           (c : Canvas) : Canvas :=
  draw (DrawImage image (getTransform c) dx dy smoothing) c.

(** ** SVG: element nodes with their attributes in insertion order. *)
Inductive Node :=
| Element (tag : string) (attrs : list (string * string)) (children : list Node)
| Text (data : string).

Definition attrs (n : Node) : list (string * string) :=
  match n with Element _ a _ => a | Text _ => [] end.
Definition children (n : Node) : list Node :=
  match n with Element _ _ c => c | Text _ => [] end.

(** [document.createElementNS('http://www.w3.org/2000/svg', tag)] *)
Definition createElementNS (tag : string) : Node := Element tag [] [].

Fixpoint assoc_set (name value : string) (l : list (string * string))
  : list (string * string) :=
  match l with
  | [] => [(name, value)]
  | (k, v) :: r =>
      if String.eqb k name then (k, value) :: r
      else (k, v) :: assoc_set name value r
  end.

Fixpoint assoc_get (name : string) (l : list (string * string))
  : option string :=
  match l with
  | [] => None
  | (k, v) :: r => if String.eqb k name then Some v else assoc_get name r
  end.

Definition setAttribute (name value : string) (n : Node) : Node :=
  match n with
  | Element t a c => Element t (assoc_set name value a) c
  | Text d => Text d
  end.

Definition getAttribute (name : string) (n : Node) : option string :=
  assoc_get name (attrs n).

Definition appendChild (child : Node) (n : Node) : Node :=
  match n with
  | Element t a c => Element t a (c ++ [child])
  | Text d => Text d
  end.

(** [while (src.firstChild) dst.appendChild(src.firstChild)]: each turn
    moves the first remaining child of the source to the end of [dst]. *)
Fixpoint moveChildren (remaining : list Node) (dst : Node) : Node :=
  match remaining with
  | [] => dst
  | firstChild :: rest => moveChildren rest (appendChild firstChild dst)
  end.

(** ** [parseInt] without a radix: leading white space, a sign, an
    optional [0x] prefix, then the longest run of digits.  [None] is
    NaN. *)
Definition digit_value (radix : Z) (c : ascii) : option Z :=
  let n := Z.of_nat (nat_of_ascii c) in
  let d := if (48 <=? n) && (n <=? 57) then Some (n - 48)
           else if (97 <=? n) && (n <=? 122) then Some (n - 87)
           else if (65 <=? n) && (n <=? 90) then Some (n - 55)
           else None in
  match d with
  | Some v => if v <? radix then Some v else None
  | None => None
  end.

Fixpoint parse_digits (radix : Z) (acc : option Z) (s : string) : option Z :=
  match s with
  | EmptyString => acc
  | String c r =>
      match digit_value radix c with
      | Some v => parse_digits radix (Some (default 0 acc * radix + v)) r
      | None => acc
      end
  end.

Definition parse_unsigned (s : string) : option Z :=
  match s with
  | String "0" (String "x" r) => parse_digits 16 None r
  | String "0" (String "X" r) => parse_digits 16 None r
  | _ => parse_digits 10 None s
  end.

Definition parseInt (o : option string) : option Z :=
  match JsString.trimStart (default "null" o) with
  | String "-" r => Z.opp <$> parse_unsigned r
  | String "+" r => parse_unsigned r
  | s => parse_unsigned s
  end.

(** [a || b] on numbers: [b] when [a] is NaN or zero. *)
Definition or_else (a : option Z) (b : Z) : Z :=
  match a with
  | Some z => if z =? 0 then b else z
  | None => b
  end.

(** ** Outcome of a call that may throw. *)
Inductive outcome (A : Type) :=
| Returned (a : A)
| Threw (exn : string).
Arguments Returned {A} a.
Arguments Threw {A} exn.

(** [try { body } catch (error) { handler }] *)
Definition try_catch {A} (body : outcome A) (handler : string -> A) : A :=
  match body with
  | Returned a => a
  | Threw exn => handler exn
  end.

(** ** The libraries the component calls. *)
Class Host := {
  (** [JsBarcode(canvas, text, options)] on a fresh canvas: the canvas
      it leaves, sized by the encoder and with the matrix the encoder
      leaves on its context, or an exception. *)
  JsBarcode_canvas : string -> BarcodeOptions -> outcome Canvas;
  (** [JsBarcode(svg, text, options)] on a fresh [svg] element. *)
  JsBarcode_svg : string -> BarcodeOptions -> outcome Node;
  toDataURL : Canvas -> string;
  outerHTML : Node -> string;
  parseFloat : string -> float
}.

Section generateSingleBarcode.
Context `{Host}.

(** The [png] branch of the [try] block. *)
Definition render_png (barcode : Entry) (widthPx heightPx : Z)
           (barcodeOptions : BarcodeOptions) : outcome Entry :=
  match JsBarcode_canvas (number barcode) barcodeOptions with
  | Threw exn => Threw exn
  | Returned canvas =>
      (* Fill background with white *)
      let canvas :=
        fillRect "white" 0 0 (cwidth canvas) (cheight canvas) canvas in
      if negb (cwidth canvas =? widthPx) || negb (cheight canvas =? heightPx)
      then
        let finalCanvas := createCanvas widthPx heightPx in
        let finalCanvas := fillRect "white" 0 0 widthPx heightPx finalCanvas in
        let x := (widthPx - cwidth canvas) / 2 in
        let y := (heightPx - cheight canvas) / 2 in
        let finalCanvas := drawImage canvas x y false finalCanvas in
        Returned (mkEntry (number barcode) (valid barcode) (error barcode)
                          (Some (toDataURL finalCanvas)) None)
      else
        Returned (mkEntry (number barcode) (valid barcode) (error barcode)
                          (Some (toDataURL canvas)) None)
  end.

(** The final [svg] element before the encoder's markup is added. *)
Definition finalSvg_frame (widthPx heightPx : Z) : Node :=
  let finalSvg := createElementNS "svg" in
  let finalSvg := setAttribute "width" (pretty widthPx) finalSvg in
  let finalSvg := setAttribute "height" (pretty heightPx) finalSvg in
  let finalSvg :=
    setAttribute "viewBox"
      ("0 0 " +:+ pretty widthPx +:+ " " +:+ pretty heightPx) finalSvg in
  let finalSvg :=
    setAttribute "xmlns" "http://www.w3.org/2000/svg" finalSvg in
  let bgRect := createElementNS "rect" in
  let bgRect := setAttribute "width" (pretty widthPx) bgRect in
  let bgRect := setAttribute "height" (pretty heightPx) bgRect in
  let bgRect := setAttribute "fill" "white" bgRect in
  appendChild bgRect finalSvg.

(** The [svg] branch of the [try] block. *)
Definition render_svg (barcode : Entry) (widthPx heightPx : Z)
           (barcodeOptions : BarcodeOptions) : outcome Entry :=
  match JsBarcode_svg (number barcode) barcodeOptions with
  | Threw exn => Threw exn
  | Returned tempSvg =>
      let actualWidth :=
        or_else (parseInt (getAttribute "width" tempSvg)) widthPx in
      let actualHeight :=
        or_else (parseInt (getAttribute "height" tempSvg)) heightPx in
      let finalSvg := finalSvg_frame widthPx heightPx in
      let finalSvg :=
        if negb (actualWidth =? widthPx) || negb (actualHeight =? heightPx)
        then
          let group := createElementNS "g" in
          let x := (widthPx - actualWidth) / 2 in
          let y := (heightPx - actualHeight) / 2 in
          let group :=
            setAttribute "transform"
              ("translate(" +:+ pretty x +:+ ", " +:+ pretty y +:+ ")")
              group in
          let group := moveChildren (children tempSvg) group in
          appendChild group finalSvg
        else moveChildren (children tempSvg) finalSvg in
      Returned (mkEntry (number barcode) (valid barcode) (error barcode)
                        None (Some (outerHTML finalSvg)))
  end.

Definition generateSingleBarcode (barcode : Entry) (format : Format)
           (dims : Dimensions) (showNum : bool) : Entry :=
  let widthPx := widthPx dims in
  let heightPx := heightPx dims in
  let barcodeOptions := barcodeOptions widthPx heightPx showNum in
  try_catch
    (match format with
     | png => render_png barcode widthPx heightPx barcodeOptions
     | svg => render_svg barcode widthPx heightPx barcodeOptions
     end)
    (fun _ => mkEntry (number barcode) false (Some "Generation failed")
                      None None).

End generateSingleBarcode.

End Renderer.

(* ================================================================== *)
(** * Batch scheduler *)

Module Scheduler.
Import Mapper Renderer.

(** The calls of the React state setters, in program order. *)
Inductive Event :=
| SetIsGenerating (b : bool)
| SetProgress (p : Progress)
| SetBarcodes (barcodes : list Entry).

(** [a.slice(i, j)] for [i <= j]. *)
Definition slice {A} (i j : nat) (a : list A) : list A :=
  take (j - i) (drop i a).

(** [a[k] = v].  Inside the array this overwrites.  At or past the end
    JavaScript grows the array; the write-back below never does that
    (see [writeBack_length]), and the case is modelled by an append. *)
Definition array_set {A} (k : nat) (v : A) (a : list A) : list A :=
  if decide (k < length a)%nat then <[k := v]> a else a ++ [v].

(** [processedBatch.forEach((p, batchIndex) => { updated[i + batchIndex] = p })],
    with [batchIndex] counted from [k]. *)
Fixpoint writeBack (i k : nat) (processedBatch updated : list Entry)
  : list Entry :=
  match processedBatch with
  | [] => updated
  | p :: rest => writeBack i (S k) rest (array_set (i + k) p updated)
  end.

(** [Promise.all(promises)]: a promise that settles stores its value in
    the slot of its own index; the array of values is delivered once
    every slot is filled.  [order] lists the indices in the order in
    which the promises settle; [None] is a result that never comes. *)
Definition settle {A} (values : list A) (slots : list (option A)) (k : nat)
  : list (option A) :=
  match values !! k with
  | Some v => <[k := Some v]> slots
  | None => slots
  end.

Definition Promise_all {A} (order : list nat) (values : list A)
  : option (list A) :=
  mapM id (foldl (settle values) (replicate (length values) None) order).

(** The local state of one call of [generateBarcodes]: the array
    [updatedBarcodes] and the setter calls made so far. *)
Record Pass := mkPass {
  updatedBarcodes : list Entry;
  trace : list Event
}.

Section generateBarcodes.
Context `{Host}.
(** [order i n]: the order in which the [n] promises of the chunk that
    starts at [i] settle. *)
Variable order : nat -> nat -> list nat.
(** [barcodes] is the state captured by the closure; the three
    settings are the snapshots taken before the loop. *)
Variables (barcodes : list Entry) (currentFormat : Format)
          (currentDimensions : Dimensions) (currentShowNumbers : bool).

(** The callback of [batch.map]. *)
Definition task (barcode : Entry) : Entry :=
  if negb (valid barcode) then barcode
  else generateSingleBarcode barcode currentFormat currentDimensions
                             currentShowNumbers.

(** One turn of the [for] loop, at chunk start [i]. *)
Definition chunk (i : nat) (st : Pass) : option Pass :=
  let batch := slice i (i + BATCH_SIZE) (updatedBarcodes st) in
  processedBatch ← Promise_all (order i (length batch)) (task <$> batch);
  let updated := writeBack i 0 processedBatch (updatedBarcodes st) in
  Some (mkPass updated
          (trace st ++
             [ SetBarcodes updated;
               SetProgress
                 (mkProgress (Nat.min (i + BATCH_SIZE) (validCount updated))
                             (validCount barcodes)) ])).

(** [for (let i = start; i < updatedBarcodes.length; i += BATCH_SIZE)].
    [fuel] bounds the number of turns; [None] is a loop that has not
    finished within it, or that waits for a chunk for ever. *)
Fixpoint loop (fuel : nat) (i : nat) (st : Pass) : option Pass :=
  if decide (i < length (updatedBarcodes st))%nat then
    match fuel with
    | O => None
    | S fuel' => st' ← chunk i st; loop fuel' (i + BATCH_SIZE) st'
    end
  else Some st.

Definition generateBarcodes_fuel (fuel : nat) : option Pass :=
  let st := mkPass barcodes
              [ SetIsGenerating true;
                SetProgress (mkProgress 0 (validCount barcodes)) ] in
  st ← loop fuel 0 st;
  Some (mkPass (updatedBarcodes st)
          (trace st ++
             [ SetIsGenerating false; SetProgress (mkProgress 0 0) ])).

(** One turn per entry is always enough ([generateBarcodes_run]). *)
Definition generateBarcodes_under : option Pass :=
  generateBarcodes_fuel (length barcodes).

End generateBarcodes.

(** The callbacks of [batch.map] await nothing: each has run to its end
    before the next one starts, so the promises settle in array order. *)
Definition in_order (i n : nat) : list nat := seq 0 n.

Definition generateBarcodes `{Host} (barcodes : list Entry)
           (currentFormat : Format) (currentDimensions : Dimensions)
           (currentShowNumbers : bool) : option Pass :=
  generateBarcodes_under in_order barcodes currentFormat currentDimensions
                         currentShowNumbers.

(** The [Progress] values published by a trace. *)
Definition published (t : list Event) : list Progress :=
  omap (fun e => match e with SetProgress p => Some p | _ => None end) t.

(** The entry lists published by a trace. *)
Definition snapshots (t : list Event) : list (list Entry) :=
  omap (fun e => match e with SetBarcodes l => Some l | _ => None end) t.

End Scheduler.

(* ================================================================== *)
(** * Exporter *)

Module Exporter.

(** What [zip.file(name, data, options)] is given: a base64 payload to
    be decoded to binary ([{ base64: true }]; [None] is [undefined]), or
    text stored as it is. *)
Inductive ZipData :=
| Base64 (payload : option string)
| PlainText (text : string).

(** A JSZip archive: its files by name; adding a name again replaces it. *)
Definition zip_file (name : string) (data : ZipData)
           (zip : gmap string ZipData) : gmap string ZipData :=
  <[name := data]> zip.

Definition fileName (barcode : Entry) (extension : string) : string :=
  number barcode +:+ "." +:+ extension.

(** The callback of [barcodes.forEach] in [downloadZip]. *)
Definition addBarcode (exportFormat : Format) (zip : gmap string ZipData)
           (barcode : Entry) : gmap string ZipData :=
  if valid barcode then
    let extension := extension exportFormat in
    match exportFormat with
    | png =>
        if JsString.truthy (dataUrl barcode) then
          let base64Data :=
            JsString.split ","%char (default "" (dataUrl barcode)) !! 1%nat in
          zip_file (fileName barcode extension) (Base64 base64Data) zip
        else zip
    | svg =>
        if JsString.truthy (svgString barcode) then
          zip_file (fileName barcode extension)
                   (PlainText (default "" (svgString barcode))) zip
        else zip
    end
  else zip.

(** [downloadZip]: the archive handed to [saveAs] and the name it is
    saved under. *)
Definition downloadZip (barcodes : list Entry) (exportFormat : Format)
  : gmap string ZipData * string :=
  (foldl (addBarcode exportFormat) ∅ barcodes,
   "barcodes." +:+ extension exportFormat +:+ ".zip").

End Exporter.

(* ================================================================== *)
(** * Session: the component state and its handlers *)

Module Session.
Import Renderer Scheduler.

(** The [useState] cells that the pipeline reads or writes.  The text
    mirrors of the two size inputs and the drag flag only feed the
    form and are left out. *)
Record State := mkState {
  showNumbers : bool;
  exportFormat : Format;
  widthCm : float;
  heightCm : float;
  lockRatio : bool;
  barcodes : list Entry;
  isGenerating : bool;
  progress : Progress;
  (** setter calls of a running [generateBarcodes] still to come *)
  pending : list Event
}.

Definition initial : State :=
  mkState true png DEFAULT_WIDTH_CM DEFAULT_HEIGHT_CM true [] false
          (mkProgress 0 0) [].

(** [a || b] on numbers: [b] when [a] is NaN or a zero. *)
Definition float_or (a b : float) : float :=
  if (PrimFloat.is_nan a || PrimFloat.is_zero a)%bool then b else a.

Section handlers.
Context `{Host}.

Definition handleWidthChange (value : string) (s : State) : State :=
  let newWidth := float_or (parseFloat value) DEFAULT_WIDTH_CM in
  let newHeight :=
    if lockRatio s then (newWidth / ASPECT_RATIO)%float else heightCm s in
  mkState (showNumbers s) (exportFormat s) newWidth newHeight (lockRatio s)
          (barcodes s) (isGenerating s) (progress s) (pending s).

Definition handleHeightChange (value : string) (s : State) : State :=
  let newHeight := float_or (parseFloat value) DEFAULT_HEIGHT_CM in
  let newWidth :=
    if lockRatio s then (newHeight * ASPECT_RATIO)%float else widthCm s in
  mkState (showNumbers s) (exportFormat s) newWidth newHeight (lockRatio s)
          (barcodes s) (isGenerating s) (progress s) (pending s).

Definition setShowNumbers (b : bool) (s : State) : State :=
  mkState b (exportFormat s) (widthCm s) (heightCm s) (lockRatio s)
          (barcodes s) (isGenerating s) (progress s) (pending s).

Definition setExportFormat (f : Format) (s : State) : State :=
  mkState (showNumbers s) f (widthCm s) (heightCm s) (lockRatio s)
          (barcodes s) (isGenerating s) (progress s) (pending s).

Definition toggleLockRatio (s : State) : State :=
  mkState (showNumbers s) (exportFormat s) (widthCm s) (heightCm s)
          (negb (lockRatio s))
          (barcodes s) (isGenerating s) (progress s) (pending s).

(** [reader.onload] of [handleFileUpload], on the text of the file. *)
Definition handleFileUpload (text : string) (s : State) : State :=
  mkState (showNumbers s) (exportFormat s) (widthCm s) (heightCm s)
          (lockRatio s)
          (Validator.processedBarcodes text) (isGenerating s)
          (mkProgress 0 0) (pending s).

(** One setter call taking effect. *)
Definition apply (e : Event) (s : State) : State :=
  match e with
  | SetIsGenerating b =>
      mkState (showNumbers s) (exportFormat s) (widthCm s) (heightCm s)
              (lockRatio s) (barcodes s) b (progress s) (pending s)
  | SetProgress p =>
      mkState (showNumbers s) (exportFormat s) (widthCm s) (heightCm s)
              (lockRatio s) (barcodes s) (isGenerating s) p (pending s)
  | SetBarcodes l =>
      mkState (showNumbers s) (exportFormat s) (widthCm s) (heightCm s)
              (lockRatio s) l (isGenerating s) (progress s) (pending s)
  end.

Definition with_pending (t : list Event) (s : State) : State :=
  mkState (showNumbers s) (exportFormat s) (widthCm s) (heightCm s)
          (lockRatio s) (barcodes s) (isGenerating s) (progress s) t.

(** A setting changes: size, format, show-numbers (and the lock). *)
Inductive setting_change : State -> State -> Prop :=
| change_width value s : setting_change s (handleWidthChange value s)
| change_height value s : setting_change s (handleHeightChange value s)
| change_showNumbers b s : setting_change s (setShowNumbers b s)
| change_exportFormat f s : setting_change s (setExportFormat f s)
| change_lockRatio s : setting_change s (toggleLockRatio s).

(** What can happen next.  The generate button is offered when some
    entry is valid and is disabled while a pass runs; clicking it
    runs [generateBarcodes] on the state of that moment, whose setter
    calls then take effect one by one, other handlers running in
    between (the pass yields after every chunk).  A size whose pixel
    count is not a finite number is outside the model. *)
Inductive step : State -> State -> Prop :=
| step_setting s s' : setting_change s s' -> step s s'
| step_upload text s : step s (handleFileUpload text s)
| step_generate s dims pass :
    isGenerating s = false ->
    pending s = [] ->
    (0 < validCount (barcodes s))%nat ->
    Mapper.dimensions (widthCm s) (heightCm s) = Some dims ->
    generateBarcodes (barcodes s) (exportFormat s) dims (showNumbers s)
      = Some pass ->
    step s (with_pending (trace pass) s)
| step_setter e rest s :
    pending s = e :: rest ->
    step s (apply e (with_pending rest s)).

Inductive reachable : State -> Prop :=
| reachable_initial : reachable initial
| reachable_step s s' : reachable s -> step s s' -> reachable s'.

End handlers.

End Session.

(* ================================================================== *)
(** * View: the values the component derives from its state to render *)

Module View.

(** [barcodes.filter(b => !b.valid).length] *)
Definition invalidCount (barcodes : list Entry) : nat :=
  length (filter (fun b => negb (valid b) = true) barcodes).

(** [validCount > 0 && barcodes.some(b => b.valid && (b.dataUrl || b.svgString))] *)
Definition canDownload (barcodes : list Entry) : bool :=
  bool_decide (0 < validCount barcodes)%nat
  && existsb (fun b => valid b
                       && (JsString.truthy (dataUrl b)
                           || JsString.truthy (svgString b)))
             barcodes.

(** [isGenerating && progress.total > 0] *)
Definition showProgress (s : Session.State) : bool :=
  Session.isGenerating s && bool_decide (0 < total (Session.progress s))%nat.

(** What [renderBarcodePreview] returns: an image, the inline markup with
    its width cap, the badge, or [null]. *)
Inductive Preview :=
| Img (src alt : string)
| SvgPreview (html : string) (maxWidth : Z)
| GeneratingBadge
| NoPreview.

Definition renderBarcodePreview (widthPx : Z) (isGenerating : bool)
           (barcode : Entry) : Preview :=
  if valid barcode && JsString.truthy (dataUrl barcode) then
    Img (default "" (dataUrl barcode)) (number barcode)
  else if valid barcode && JsString.truthy (svgString barcode) then
    SvgPreview (default "" (svgString barcode)) (Z.min (widthPx * 2) 300)
  else if valid barcode && isGenerating then GeneratingBadge
  else NoPreview.

(** The banner shown for a large file:
    [barcodes.length > 500 && !isGenerating &&
     !barcodes.some(b => b.dataUrl || b.svgString)] *)
Definition largeFileWarning (s : Session.State) : bool :=
  bool_decide (500 < length (Session.barcodes s))%nat
  && negb (Session.isGenerating s)
  && negb (existsb (fun b => JsString.truthy (dataUrl b)
                             || JsString.truthy (svgString b))
                   (Session.barcodes s)).

End View.

(* ================================================================== *)
(** * Vocabulary of the statements *)

Section vocabulary.
Import Mapper Renderer Scheduler Exporter Session.

(** The ten ASCII digits, spelled out. *)
Definition ascii_digit (c : ascii) : bool :=
  existsb (Ascii.eqb c) (list_ascii_of_string "0123456789").

Definition all_ascii_digits (s : string) : bool :=
  forallb ascii_digit (list_ascii_of_string s).

(** Following the words of the specification: a size in centimetres and
    a resolution in dots per inch give [round (cm * dpi / 2.54)]. *)
Definition mapSize_spec (widthCm heightCm dpi : float) : option (Z * Z) :=
  match Math_round (widthCm * dpi / 2.54)%float,
        Math_round (heightCm * dpi / 2.54)%float with
  | Some w, Some h => Some (w, h)
  | _, _ => None
  end.

(** Every promise of a chunk settles, once. *)
Definition fair (order : nat -> nat -> list nat) : Prop :=
  forall i n, order i n ≡ₚ seq 0 n.

(** The number of turns of the loop over [len] entries. *)
Definition chunks (len : nat) : nat := (len + BATCH_SIZE - 1) / BATCH_SIZE.

(** Following the words of the specification: [current] is the
    cumulative count of valid entries processed, capped at [total], the
    count of valid entries; after chunk [c] the entries processed are the
    first [(c + 1) * BATCH_SIZE]. *)
Definition claimed_progress (barcodes : list Entry) (c : nat) : Progress :=
  mkProgress
    (Nat.min (validCount (take ((c + 1) * BATCH_SIZE) barcodes))
             (validCount barcodes))
    (validCount barcodes).

(** The background rectangle of the final vector document. *)
Definition bgRect (widthPx heightPx : Z) : Node :=
  Element "rect"
    [ ("width", pretty widthPx); ("height", pretty heightPx);
      ("fill", "white") ] [].

(** The artifact of an entry in a format. *)
Definition artifact (f : Format) (b : Entry) : option string :=
  match f with png => dataUrl b | svg => svgString b end.

(** A data URL and the markup of a document are never the empty string. *)
Definition artifacts_nonempty (b : Entry) : Prop :=
  dataUrl b <> Some "" /\ svgString b <> Some "".

(** Valid, with a non-null artifact of the format. *)
Definition rendered (f : Format) (b : Entry) : Prop :=
  valid b = true /\ is_Some (artifact f b).

(** What is stored for an entry: the part of the data URL after its
    first comma, to be decoded from base64, or the markup as text. *)
Definition stored (f : Format) (b : Entry) : ZipData :=
  match f with
  | png => Base64 (JsString.split ","%char (default "" (dataUrl b)) !! 1%nat)
  | svg => PlainText (default "" (svgString b))
  end.

(** An artifact is there only on a valid entry. *)
Definition artifact_only_if_valid (b : Entry) : Prop :=
  is_Some (dataUrl b) \/ is_Some (svgString b) -> valid b = true.

(** The lists carried by the setter calls still to come. *)
Definition pending_lists (P : Entry -> Prop) (t : list Event) : Prop :=
  Forall (fun l => Forall P l) (snapshots t).

(** Apply the setter calls of a list, first to last. *)
Fixpoint drain (t : list Event) (s : State) : State :=
  match t with
  | [] => s
  | e :: rest => drain rest (apply e (with_pending rest s))
  end.

(** The renders of every chunk complete last to first. *)
Definition backwards (i n : nat) : list nat := reverse (seq 0 n).

(** The entry returned by the [catch] block. *)
Definition failed (barcode : Entry) : Entry :=
  mkEntry (number barcode) false (Some "Generation failed") None None.

(** A size of [n] pixels, as an encoder writes it in an attribute. *)
Definition px (n : Z) : string := pretty n +:+ "px".

(** The size the renderer takes a vector artifact to have in one
    direction: the size its attribute declares when that is positive;
    the target when the attribute declares zero or is absent. *)
Inductive size_read (target : Z) : option string -> Z -> Prop :=
| size_declared n : 0 < n -> size_read target (Some (px n)) n
| size_zero : size_read target (Some (px 0)) target
| size_absent : size_read target None target.

(** Following the words of the specification: the final vector document
    for a native artifact of [aw] by [ah] pixels with the markup
    [native].  It declares [width], [height] and [viewBox] equal to the
    target size, contains a background rectangle, and holds the native
    markup, wrapped in a translation group with the centring offsets
    when the native size differs from the target. *)
Definition centred_document (W Ht aw ah : Z) (native : list Node) : Node :=
  Element "svg"
    [ ("width", pretty W); ("height", pretty Ht);
      ("viewBox", "0 0 " +:+ pretty W +:+ " " +:+ pretty Ht);
      ("xmlns", "http://www.w3.org/2000/svg") ]
    (bgRect W Ht ::
     if decide (aw = W /\ ah = Ht) then native
     else [ Element "g"
              [ ("transform",
                 "translate(" +:+ pretty ((W - aw) / 2) +:+ ", "
                 +:+ pretty ((Ht - ah) / 2) +:+ ")") ]
              native ]).

(** Valid, with an artifact of the format that is neither null nor the
    empty string. *)
Definition rendered_nonempty (f : Format) (b : Entry) : Prop :=
  rendered f b /\ artifact f b <> Some "".

End vocabulary.

Section pass_vocabulary.
Import Mapper Renderer Scheduler.
Context `{Host}.

(** The encoder call that [generateSingleBarcode] makes throws. *)
Definition encoder_throws (format : Format) (barcode : Entry)
           (dims : Dimensions) (showNum : bool) : Prop :=
  let o := barcodeOptions (widthPx dims) (heightPx dims) showNum in
  match format with
  | png => exists exn, JsBarcode_canvas (number barcode) o = Threw exn
  | svg => exists exn, JsBarcode_svg (number barcode) o = Threw exn
  end.

Variables (barcodes : list Entry) (format : Format)
          (dims : Dimensions) (showNum : bool).

(** The entry list once the first [n] entries have been through [task]. *)
Definition processed (n : nat) : list Entry :=
  (task format dims showNum <$> take n barcodes) ++ drop n barcodes.

(** The renders that have failed among the first [n] entries: the
    entries valid at the start that [task] returns invalid. *)
Definition failures (n : nat) : nat :=
  length (filter (fun b => valid b = true
                           /\ valid (task format dims showNum b) = false)
                 (take n barcodes)).

(** The progress published at the end of the turn number [c]. *)
Definition chunk_progress (c : nat) : Progress :=
  mkProgress
    (Nat.min ((c + 1) * BATCH_SIZE)
             (validCount (processed ((c + 1) * BATCH_SIZE))))
    (validCount barcodes).

(** The two setter calls at the end of the turn number [c]. *)
Definition chunk_events (c : nat) : list Event :=
  [ SetBarcodes (processed ((c + 1) * BATCH_SIZE));
    SetProgress (chunk_progress c) ].

End pass_vocabulary.

(* ================================================================== *)
(** * Vocabulary of the further properties *)

Section more_vocabulary.
Import Mapper Renderer Scheduler Exporter.

(** The characters of a string. *)
Definition chars (s : string) : list ascii := list_ascii_of_string s.

(** Only white space. *)
Definition blank (s : string) : Prop :=
  Forall (fun c => JsString.is_space c = true) (chars s).

(** Not empty, with no white space at either end. *)
Definition tight (s : string) : Prop :=
  (exists c, head (chars s) = Some c /\ JsString.is_space c = false)
  /\ (exists c, last (chars s) = Some c /\ JsString.is_space c = false).

(** The line feed, at which [handleFileUpload] splits. *)
Definition LF : ascii := "010"%char.

(** Leading white space dropped, on a list of characters. *)
Fixpoint skip_spaces (l : list ascii) : list ascii :=
  match l with
  | [] => []
  | c :: r => if JsString.is_space c then skip_spaces r else l
  end.

(** The other export format. *)
Definition other (f : Format) : Format :=
  match f with png => svg | svg => png end.

(** An entry with the artifact of a successful render in a format. *)
Definition with_artifact (f : Format) (a : string) (b : Entry) : Entry :=
  match f with
  | png => mkEntry (number b) (valid b) (error b) (Some a) None
  | svg => mkEntry (number b) (valid b) (error b) None (Some a)
  end.

(** What [downloadZip] tests before adding a file for an entry. *)
Definition exportable (f : Format) (b : Entry) : Prop :=
  valid b = true /\ JsString.truthy (artifact f b) = true.

(** The error is shown exactly on invalid entries; a valid entry holds a
    twelve-digit code; an entry holds at most one artifact. *)
Definition well_formed (b : Entry) : Prop :=
  (valid b = true <-> error b = None)
  /\ (valid b = true -> Validator.validateBarcode (number b) = true)
  /\ (dataUrl b = None \/ svgString b = None).

(** No pass is running and the progress is reset. *)
Definition idle (s : Session.State) : Prop :=
  Session.isGenerating s = false
  /\ Session.progress s = mkProgress 0 0
  /\ Session.pending s = [].

(** The setter calls still to come end the pass: they finish with
    [setIsGenerating(false)] and [setProgress({0, 0})], or only the
    latter is left. *)
Definition winding_down (s : Session.State) : Prop :=
  (exists rest,
      Session.pending s
      = rest ++ [SetIsGenerating false; SetProgress (mkProgress 0 0)])
  \/ (Session.pending s = [SetProgress (mkProgress 0 0)]
      /\ Session.isGenerating s = false).

(** [current] does not exceed [total]. *)
Definition within_total (p : Progress) : Prop := (current p <= total p)%nat.

End more_vocabulary.

(* ================================================================== *)
(** * Sample hosts and inputs, for the examples *)

Module Samples.
Import Mapper Renderer.

(** The size JsBarcode gives a UPC symbol: 95 modules and the two
    margins across; bars, text and the two margins down. *)
Definition native_width (o : BarcodeOptions) : Z := 95 * width o + 2 * margin o.
Definition native_height (o : BarcodeOptions) : Z :=
  height o + (if displayValue o then fontSize o + 2 else 0) + 2 * margin o.

(** JsBarcode moves the origin of the context past the left margin and
    past the bars as it draws them, and the origin is still there when it
    returns: the matrix it leaves is the translation to the right
    margin. *)
Definition sample_canvas (text : string) (o : BarcodeOptions) : Canvas :=
  mkCanvas (native_width o) (native_height o)
           (translation (native_width o - margin o) 0) [Bars text o].

Definition sample_svg (text : string) (o : BarcodeOptions) : Node :=
  Element "svg"
    [ ("width", pretty (native_width o) +:+ "px");
      ("height", pretty (native_height o) +:+ "px") ]
    [ Element "rect" [("style", "fill:#ffffff;")] [];
      Element "g" [("style", "fill:#000000;")] [Text text] ].

Definition sample_toDataURL (c : Canvas) : string :=
  "data:image/png;base64," +:+ pretty (cwidth c) +:+ "x" +:+ pretty (cheight c).

Definition sample_outerHTML (n : Node) : string :=
  "<svg width=" +:+ default "" (getAttribute "width" n) +:+ "/>".

Definition sample_parseFloat (s : string) : float :=
  if String.eqb s "3" then 3%float
  else if String.eqb s "0.33" then 0.33%float
  else PrimFloat.nan.

(** An encoder that accepts every text. *)
Definition accepting : Host :=
  {| JsBarcode_canvas text o := Returned (sample_canvas text o);
     JsBarcode_svg text o := Returned (sample_svg text o);
     toDataURL := sample_toDataURL;
     outerHTML := sample_outerHTML;
     parseFloat := sample_parseFloat |}.

(** Serialisers that print a document and the calls of a canvas in
    full, for the examples that show a whole artifact. *)
Fixpoint show_attrs (a : list (string * string)) : string :=
  match a with
  | [] => ""
  | (k, v) :: r => " " +:+ k +:+ "='" +:+ v +:+ "'" +:+ show_attrs r
  end.

Fixpoint show_node (n : Node) : string :=
  match n with
  | Text d => d
  | Element t a c =>
      "<" +:+ t +:+ show_attrs a +:+ ">"
      +:+ (fix show_all (l : list Node) : string :=
             match l with
             | [] => ""
             | x :: r => show_node x +:+ show_all r
             end) c
      +:+ "</" +:+ t +:+ ">"
  end.

Definition show_matrix (m : Matrix) : string :=
  "(" +:+ pretty (m_a m) +:+ " " +:+ pretty (m_b m) +:+ " "
  +:+ pretty (m_c m) +:+ " " +:+ pretty (m_d m) +:+ " "
  +:+ pretty (m_e m) +:+ " " +:+ pretty (m_f m) +:+ ")".

Definition show_rect (x y w h : Z) : string :=
  pretty x +:+ " " +:+ pretty y +:+ " " +:+ pretty w +:+ " " +:+ pretty h.

Definition show_options (o : BarcodeOptions) : string :=
  format o +:+ (if displayValue o then " text " else " bare ")
  +:+ show_rect (width o) (height o) (margin o) (fontSize o).

Fixpoint show_canvas (c : Canvas) : string :=
  match c with
  | mkCanvas w h m o =>
      pretty w +:+ "x" +:+ pretty h +:+ " " +:+ show_matrix m +:+ " ["
      +:+ (fix show_all (l : list DrawOp) : string :=
             match l with
             | [] => ""
             | op :: r => show_op op +:+ ";" +:+ show_all r
             end) o
      +:+ "]"
  end
with show_op (op : DrawOp) : string :=
  match op with
  | FillRect style m x y w h =>
      "fillRect " +:+ style +:+ " " +:+ show_matrix m +:+ " "
      +:+ show_rect x y w h
  | DrawImage image m dx dy smoothing =>
      "drawImage " +:+ (if smoothing then "smooth " else "crisp ")
      +:+ show_matrix m +:+ " " +:+ pretty dx +:+ " " +:+ pretty dy +:+ " "
      +:+ show_canvas image
  | Bars text o => "bars " +:+ text +:+ " " +:+ show_options o
  end.

(** The accepting encoder with these serialisers. *)
Definition printing : Host :=
  {| JsBarcode_canvas text o := Returned (sample_canvas text o);
     JsBarcode_svg text o := Returned (sample_svg text o);
     toDataURL c := "data:image/png;base64," +:+ show_canvas c;
     outerHTML := show_node;
     parseFloat := sample_parseFloat |}.

(** The UPC check digit of the first eleven digits. *)
Fixpoint weighted (w : nat) (digits : list nat) : nat :=
  match digits with
  | [] => 0
  | d :: r => (w * d + weighted (4 - w) r)%nat
  end.

Definition digits (s : string) : list nat :=
  (fun c => (nat_of_ascii c - 48)%nat) <$> list_ascii_of_string s.

Definition check_digit (s : string) : nat :=
  ((10 - weighted 3 (take 11 (digits s)) mod 10) mod 10)%nat.

Definition well_checked (s : string) : bool :=
  Validator.validateBarcode s
  && bool_decide (digits s !! 11%nat = Some (check_digit s)).

(** An encoder that throws on a wrong check digit, as a UPC encoder does. *)
Definition checking : Host :=
  {| JsBarcode_canvas text o :=
       if well_checked text then Returned (sample_canvas text o)
       else Threw "InvalidInputException";
     JsBarcode_svg text o :=
       if well_checked text then Returned (sample_svg text o)
       else Threw "InvalidInputException";
     toDataURL := sample_toDataURL;
     outerHTML := sample_outerHTML;
     parseFloat := sample_parseFloat |}.

Definition default_dims : Dimensions := mkDimensions 260 113 2.2 0.9557.

Definition good : Entry := mkEntry "012345678905" true None None None.
Definition unchecked : Entry := mkEntry "123456789013" true None None None.
Definition short : Entry :=
  mkEntry "bad" false (Some "Invalid: must be 12 digits") None None.

(** One invalid entry ahead of fifty valid ones: two chunks. *)
Definition short_then_fifty : list Entry := short :: replicate 50 good.

(** Ten valid entries and forty invalid ones, then fifty whose check
    digit is wrong. *)
Definition ten_good_fifty_unchecked : list Entry :=
  replicate 10 good ++ replicate 40 short ++ replicate 50 unchecked.

(** The entry [good] once rendered as a raster image by the sample host. *)
Definition good_rendered : Entry :=
  mkEntry "012345678905" true None (Some "data:image/png;base64,260x113") None.

(** A file with one good code is uploaded and a pass has run to its end. *)
Definition after_pass : Session.State :=
  Session.mkState true png DEFAULT_WIDTH_CM DEFAULT_HEIGHT_CM true [good_rendered]
          false (mkProgress 0 0) [].

End Samples.

(** More inputs, for the examples of the further properties. *)
Module Fixtures.
Import Mapper Renderer Scheduler Session Samples.

(** The pass over the one entry [good], with the accepting encoder. *)
Definition sample_pass : Pass :=
  default (mkPass [] [])
          (generateBarcodes (H := accepting) [good] png default_dims true).

(** One good code has been uploaded and the generate button clicked. *)
Definition clicked : State :=
  with_pending (trace sample_pass) (handleFileUpload "012345678905" initial).

(** The same code rendered twice, the second time at another size. *)
Definition rendered_small : Entry :=
  mkEntry "012345678905" true None (Some "data:image/png;base64,AAAA") None.
Definition rendered_large : Entry :=
  mkEntry "012345678905" true None (Some "data:image/png;base64,BBBB") None.

(** A file that holds the same code on two lines. *)
Definition same_code_twice : string :=
  "012345678905" +:+ String "010" "012345678905".

(** A line as a DOS file has it: the code, padded, then a carriage return. *)
Definition padded_line : string :=
  "  " +:+ "012345678905" +:+ String "013" "".

End Fixtures.

(* ================================================================== *)
(** * Properties of the validator *)

Section validator_facts.
Import Validator.

Lemma is_digit_ascii_digit c : is_digit c = ascii_digit c.
Proof.
  destruct c as [b0 b1 b2 b3 b4 b5 b6 b7].
  destruct b0, b1, b2, b3, b4, b5, b6, b7; reflexivity.
Qed.

Lemma match_digits_exact n : forall s,
  match match_digits n s with Some EmptyString => true | _ => false end
  = Nat.eqb (String.length s) n && all_ascii_digits s.
Proof.
  induction n as [|k IH]; intros [|c r]; simpl; try reflexivity.
  rewrite is_digit_ascii_digit.
  destruct (ascii_digit c) eqn:Hc.
  - rewrite IH. unfold all_ascii_digits. simpl. now rewrite Hc.
  - unfold all_ascii_digits. simpl. rewrite Hc. simpl.
    now rewrite andb_false_r.
Qed.

Lemma validateBarcode_spec line :
  validateBarcode line
  = Nat.eqb (String.length line) 12 && all_ascii_digits line.
Proof. apply match_digits_exact. Qed.

(** C5.  A line is valid exactly when it has twelve characters, all of
    them ASCII digits.  The entry built for it carries no error when it
    is valid; otherwise the error reports the length when the length is
    not twelve and, only when the length is twelve, the non-numeric
    content. *)
Theorem validate_twelve_ascii_digits (line : string) :
  (validateBarcode line = true <->
     String.length line = 12%nat /\
     Forall (fun c => ascii_digit c = true) (list_ascii_of_string line))
  /\ processLine line =
     {| number := line;
        valid := Nat.eqb (String.length line) 12 && all_ascii_digits line;
        error := if negb (Nat.eqb (String.length line) 12)
                 then Some "Invalid: must be 12 digits"
                 else if all_ascii_digits line then None
                 else Some "Invalid: must contain only numbers";
        dataUrl := None;
        svgString := None |}.
Proof.
  split.
  - rewrite validateBarcode_spec, andb_true_iff, Nat.eqb_eq.
    unfold all_ascii_digits.
    rewrite forallb_forall, List.Forall_forall. reflexivity.
  - unfold processLine. rewrite validateBarcode_spec.
    destruct (Nat.eqb (String.length line) 12); simpl; [|reflexivity].
    destruct (all_ascii_digits line); reflexivity.
Qed.

Example validate_ok : processLine "012345678905"
  = mkEntry "012345678905" true None None None.
Proof. reflexivity. Qed.

Example validate_short : processLine "01234567890"
  = mkEntry "01234567890" false (Some "Invalid: must be 12 digits") None None.
Proof. reflexivity. Qed.

Example validate_letter : processLine "01234567890A"
  = mkEntry "01234567890A" false (Some "Invalid: must contain only numbers")
            None None.
Proof. reflexivity. Qed.

End validator_facts.

(* ================================================================== *)
(** * Properties of the dimension mapper *)

Section mapper_facts.
Import Mapper.

Example Math_round_tie_up : Math_round 2.5%float = Some 3.
Proof. reflexivity. Qed.

Example Math_round_tie_neg : Math_round (-2.5)%float = Some (-2).
Proof. reflexivity. Qed.

Example Math_round_nan : Math_round PrimFloat.nan = None.
Proof. reflexivity. Qed.

(** C3, as stated, fails: at the constant 118.11 the code yields
    260 by 113 pixels, but [round (cm * dpi / 2.54)] at [dpi = 118.11]
    is 102 by 44, far more than one pixel away. *)
Lemma mapSize_not_dpi_formula :
  dimensions 2.2 0.9557 = Some (mkDimensions 260 113 2.2 0.9557)
  /\ mapSize_spec 2.2 0.9557 118.11 = Some (102, 44)
  /\ ~ (exists dims w h,
          dimensions 2.2 0.9557 = Some dims /\
          mapSize_spec 2.2 0.9557 118.11 = Some (w, h) /\
          Z.abs (widthPx dims - w) <= 1 /\ Z.abs (heightPx dims - h) <= 1).
Proof.
  assert (Hd : dimensions 2.2 0.9557 = Some (mkDimensions 260 113 2.2 0.9557))
    by (vm_compute; reflexivity).
  assert (Hs : mapSize_spec 2.2 0.9557 118.11 = Some (102, 44))
    by (vm_compute; reflexivity).
  split; [exact Hd|]. split; [exact Hs|].
  intros (dims & w & h & Hd' & Hs' & Hw & _).
  rewrite Hd in Hd'. rewrite Hs in Hs'.
  injection Hd' as <-. injection Hs' as <- <-. simpl in Hw. lia.
Qed.

(** C3, amended.  The pixel size is [round (cm * 118.11)], 118.11 being
    the pixels per centimetre of 300 dots per inch; at 2.2 by 0.9557
    centimetres it is 260 by 113 pixels, which is also what
    [round (cm * dpi / 2.54)] gives at [dpi = 300]. *)
Theorem dimensions_pixels_per_cm (widthCm heightCm : float) :
  dimensions widthCm heightCm =
    (w ← Math_round (widthCm * 118.11)%float;
     h ← Math_round (heightCm * 118.11)%float;
     Some (mkDimensions w h widthCm heightCm))
  /\ dimensions 2.2 0.9557 = Some (mkDimensions 260 113 2.2 0.9557)
  /\ mapSize_spec 2.2 0.9557 300 = Some (260, 113).
Proof.
  split; [|split; vm_compute; reflexivity].
  unfold dimensions, CM_TO_PIXEL.
  destruct (Math_round (widthCm * 118.11)%float) as [w|]; simpl;
    [|reflexivity].
  destruct (Math_round (heightCm * 118.11)%float); reflexivity.
Qed.

(** C2, as stated, fails: the bar height has no lower bound.  A height
    of 0.33 cm is 39 pixels, and with the digits shown the bar height
    is then zero. *)
Lemma barHeight_can_be_zero :
  dimensions 2.2 0.33 = Some (mkDimensions 260 39 2.2 0.33)
  /\ height (barcodeOptions 260 39 true) = 0
  /\ ~ (forall widthPx heightPx showNum,
          0 < height (barcodeOptions widthPx heightPx showNum)).
Proof.
  split; [vm_compute; reflexivity|].
  split; [reflexivity|].
  intros Hall. specialize (Hall 260 39 true). vm_compute in Hall.
  discriminate.
Qed.

(** C2, amended.  The module width is [max 1 (floor (widthPx / 115))];
    the font size is [max 14 (floor (heightPx / 10))] when the digits
    are shown and zero otherwise; the bar height is
    [heightPx - fontSize - 2 * margin - 5] with margin 10 and no lower
    bound: it is positive exactly when [heightPx] is at least 40 with
    the digits shown, at least 26 without. *)
Theorem barcodeOptions_mapping (widthPx heightPx : Z) (showNum : bool) :
  let o := barcodeOptions widthPx heightPx showNum in
  width o = Z.max 1 (widthPx / 115)
  /\ fontSize o = (if showNum then Z.max 14 (heightPx / 10) else 0)
  /\ margin o = 10
  /\ height o = heightPx - fontSize o - 2 * margin o - 5
  /\ (0 < height o <-> (if showNum then 40 else 26) <= heightPx)
  /\ displayValue o = showNum
  /\ format o = "UPC".
Proof.
  simpl. repeat split; try reflexivity.
  - destruct showNum; intros Hpos; [|lia].
    pose proof (Z.div_le_upper_bound heightPx 10 14).
    destruct (Z_lt_ge_dec heightPx 40); [|lia].
    assert (heightPx / 10 <= 3) by (apply Z.div_le_upper_bound; lia). lia.
  - destruct showNum; intros Hge; [|lia].
    assert (10 * (heightPx / 10) <= heightPx)
      by (apply Z.mul_div_le; lia).
    lia.
Qed.

End mapper_facts.

(* ================================================================== *)
(** * Properties of the renderer's result *)

Section renderer_facts.
Import Mapper Renderer.
Context `{Host}.

Lemma generateSingleBarcode_threw barcode format dims showNum :
  encoder_throws format barcode dims showNum ->
  generateSingleBarcode barcode format dims showNum = failed barcode.
Proof.
  unfold encoder_throws, generateSingleBarcode, render_png, render_svg.
  destruct format; intros [exn ->]; reflexivity.
Qed.

Lemma generateSingleBarcode_shape barcode format dims showNum :
  generateSingleBarcode barcode format dims showNum = failed barcode
  \/ exists d s,
       generateSingleBarcode barcode format dims showNum
       = mkEntry (number barcode) (valid barcode) (error barcode) d s
       /\ (is_Some d \/ is_Some s).
Proof.
  unfold generateSingleBarcode, render_png, render_svg.
  destruct format.
  - destruct (JsBarcode_canvas _ _) as [canvas|exn]; [right|left; reflexivity].
    destruct (_ || _); simpl; eauto 6.
  - destruct (JsBarcode_svg _ _) as [tempSvg|exn]; [right|left; reflexivity].
    simpl; eauto 6.
Qed.

Lemma generateSingleBarcode_number barcode format dims showNum :
  number (generateSingleBarcode barcode format dims showNum) = number barcode.
Proof.
  destruct (generateSingleBarcode_shape barcode format dims showNum)
    as [->|(d & s & -> & _)]; reflexivity.
Qed.

Lemma generateSingleBarcode_returns barcode format dims showNum :
  ~ encoder_throws format barcode dims showNum ->
  exists d s,
    generateSingleBarcode barcode format dims showNum
    = mkEntry (number barcode) (valid barcode) (error barcode) d s.
Proof.
  unfold encoder_throws, generateSingleBarcode, render_png, render_svg.
  destruct format; intros Hok.
  - destruct (JsBarcode_canvas _ _) as [canvas|exn];
      [|destruct Hok; eauto].
    destruct (_ || _); simpl; eauto.
  - destruct (JsBarcode_svg _ _) as [tempSvg|exn];
      [|destruct Hok; eauto].
    simpl; eauto.
Qed.

End renderer_facts.

(* ================================================================== *)
(** * Properties of the batch scheduler *)

Section scheduler_facts.
Import Mapper Renderer Scheduler.
Local Open Scope nat_scope.

Lemma BATCH_SIZE_pos : 0 < BATCH_SIZE.
Proof. unfold BATCH_SIZE. lia. Qed.

Lemma writeBack_length i processedBatch : forall k updated,
  i + k + length processedBatch <= length updated ->
  length (writeBack i k processedBatch updated) = length updated.
Proof.
  induction processedBatch as [|p rest IH]; intros k updated Hle; simpl in *;
    [reflexivity|].
  unfold array_set. rewrite decide_True by lia.
  rewrite IH; rewrite length_insert; [reflexivity|lia].
Qed.

(** The write-back replaces exactly the slots [i + k ..] of the batch. *)
Lemma writeBack_lookup i processedBatch : forall k updated j,
  i + k + length processedBatch <= length updated ->
  writeBack i k processedBatch updated !! j
  = if decide (i + k <= j < i + k + length processedBatch)
    then processedBatch !! (j - (i + k)) else updated !! j.
Proof.
  induction processedBatch as [|p rest IH]; intros k updated j Hle; simpl in *.
  - rewrite decide_False by lia. reflexivity.
  - unfold array_set. rewrite decide_True by lia.
    rewrite IH by (rewrite length_insert; lia).
    destruct (decide (j = i + k)) as [->|Hne].
    + rewrite decide_False by lia. rewrite decide_True by lia.
      rewrite list_lookup_insert_eq by lia.
      replace (i + k - (i + k)) with 0 by lia. reflexivity.
    + rewrite list_lookup_insert_ne by lia.
      repeat case_decide; try lia; try reflexivity.
      replace (j - (i + k)) with (S (j - (i + S k))) by lia. reflexivity.
Qed.

Lemma in_order_fair : fair in_order.
Proof. intros i n. reflexivity. Qed.

Lemma settle_length {A} (values : list A) slots k :
  length (settle values slots k) = length slots.
Proof.
  unfold settle. destruct (values !! k); [apply length_insert|reflexivity].
Qed.

Lemma settle_all_lookup {A} (values : list A) settled : forall slots k,
  length slots = length values ->
  k < length values ->
  foldl (settle values) slots settled !! k
  = if decide (k ∈ settled) then Some (values !! k) else slots !! k.
Proof.
  induction settled as [|a rest IH]; intros slots k Hlen Hk; simpl.
  - destruct (decide (k ∈ [])) as [Hin|_]; [inversion Hin|reflexivity].
  - rewrite IH by (rewrite ?settle_length; assumption).
    destruct (decide (k ∈ rest)) as [Hin|Hnin].
    + rewrite decide_True by (right; exact Hin). reflexivity.
    + unfold settle. destruct (decide (a = k)) as [->|Hne].
      * rewrite decide_True by left.
        destruct (lookup_lt_is_Some_2 values k Hk) as [v Hv].
        rewrite Hv. rewrite list_lookup_insert_eq by lia. reflexivity.
      * rewrite decide_False
          by (intros [?|?]%elem_of_cons; [congruence|contradiction]).
        destruct (values !! a); [|reflexivity].
        apply list_lookup_insert_ne. exact Hne.
Qed.

(** Whatever the order in which the promises settle, [Promise.all]
    delivers the values in array order. *)
Lemma Promise_all_any_order {A} (settled : list nat) (values : list A) :
  settled ≡ₚ seq 0 (length values) ->
  Promise_all settled values = Some values.
Proof.
  intros Hperm. unfold Promise_all.
  assert (Hlen : forall l slots,
             length (foldl (settle values) slots l) = length slots).
  { induction l as [|a l IH]; intros slots; simpl; [reflexivity|].
    rewrite IH. apply settle_length. }
  replace (foldl (settle values) (replicate (length values) None) settled)
    with (Some <$> values); [apply mapM_fmap_Some; reflexivity|].
  apply list_eq. intros k. rewrite list_lookup_fmap.
  destruct (decide (k < length values)) as [Hk|Hk].
  - rewrite settle_all_lookup by (rewrite ?length_replicate; lia).
    rewrite decide_True; [|rewrite Hperm, elem_of_seq; lia].
    destruct (lookup_lt_is_Some_2 values k Hk) as [v ->]. reflexivity.
  - rewrite !lookup_ge_None_2;
      rewrite ?Hlen, ?length_replicate; try reflexivity; lia.
Qed.

Context `{Host}.
Variables (order : nat -> nat -> list nat) (barcodes : list Entry)
          (format : Format) (dims : Dimensions) (showNum : bool).
Hypothesis order_fair : fair order.

Local Abbreviation task := (Scheduler.task format dims showNum).
Local Abbreviation chunk := (Scheduler.chunk order barcodes format dims showNum).
Local Abbreviation loop := (Scheduler.loop order barcodes format dims showNum).
Local Abbreviation upto := (processed barcodes format dims showNum).
Local Abbreviation events_at := (chunk_events barcodes format dims showNum).

Lemma task_number b : number (task b) = number b.
Proof.
  unfold Scheduler.task. destruct (valid b); simpl; [|reflexivity].
  apply generateSingleBarcode_number.
Qed.

Lemma task_invalid b : valid b = false -> task b = b.
Proof. unfold Scheduler.task. intros ->. reflexivity. Qed.

Lemma task_valid_le b : valid (task b) = true -> valid b = true.
Proof.
  destruct (valid b) eqn:Hv; [reflexivity|].
  rewrite task_invalid by exact Hv. rewrite Hv. discriminate.
Qed.

Lemma processed_lookup n j :
  upto n !! j
  = if decide (j < n) then task <$> barcodes !! j else barcodes !! j.
Proof.
  unfold processed. rewrite lookup_app, list_lookup_fmap, lookup_take.
  case_decide as Hj.
  - destruct (barcodes !! j) as [b|] eqn:Hb; simpl; [reflexivity|].
    rewrite lookup_drop. apply lookup_ge_None_2.
    apply lookup_ge_None_1 in Hb. lia.
  - simpl. rewrite lookup_drop, length_fmap, length_take.
    destruct (decide (n <= length barcodes)).
    + f_equal. lia.
    + rewrite !lookup_ge_None_2 by lia. reflexivity.
Qed.

Lemma processed_length n : length (upto n) = length barcodes.
Proof.
  unfold processed.
  rewrite length_app, length_fmap, length_take, length_drop. lia.
Qed.

Lemma processed_all n :
  length barcodes <= n -> upto n = task <$> barcodes.
Proof.
  intros Hn. unfold processed.
  rewrite take_ge, drop_ge by lia. apply app_nil_r.
Qed.

(** Writing a upto chunk back carries the first [i] processed
    entries to [i + BATCH_SIZE]. *)
Lemma writeBack_processed i :
  i < length barcodes ->
  writeBack i 0 (task <$> slice i (i + BATCH_SIZE) (upto i)) (upto i)
  = upto (i + BATCH_SIZE).
Proof.
  intros Hi. unfold slice.
  replace (i + BATCH_SIZE - i) with BATCH_SIZE by lia.
  assert (Hlen : i + 0 + length (task <$> take BATCH_SIZE (drop i (upto i)))
                 <= length (upto i)).
  { rewrite length_fmap, length_take, length_drop, processed_length. lia. }
  apply list_eq. intros j.
  rewrite writeBack_lookup by exact Hlen.
  rewrite length_fmap, length_take, length_drop, processed_length.
  rewrite list_lookup_fmap, lookup_take, lookup_drop.
  rewrite !processed_lookup.
  repeat case_decide; try lia; try reflexivity.
  - replace (i + (j - (i + 0))) with j by lia. reflexivity.
  - rewrite !lookup_ge_None_2 by lia. reflexivity.
Qed.

Lemma chunks_lt c len : c * BATCH_SIZE < len <-> c < chunks len.
Proof.
  unfold chunks. pose proof BATCH_SIZE_pos as Hpos. split; intros Hc.
  - apply Nat.div_le_lower_bound; [lia|]. nia.
  - assert (Hd := Nat.Div0.mul_div_le (len + BATCH_SIZE - 1) BATCH_SIZE).
    nia.
Qed.

Lemma chunks_le_length len : chunks len <= len.
Proof.
  pose proof BATCH_SIZE_pos.
  destruct (Nat.le_gt_cases (chunks len) len) as [|Hgt]; [assumption|].
  apply chunks_lt in Hgt. nia.
Qed.

Lemma chunks_cover len : len <= chunks len * BATCH_SIZE.
Proof.
  destruct (Nat.le_gt_cases len (chunks len * BATCH_SIZE)) as [|Hgt];
    [assumption|].
  apply chunks_lt in Hgt. lia.
Qed.

(** One turn of the loop. *)
Lemma chunk_run c u t :
  c * BATCH_SIZE < length barcodes ->
  u = upto (c * BATCH_SIZE) ->
  chunk (c * BATCH_SIZE) (mkPass u t)
  = Some (mkPass (upto ((c + 1) * BATCH_SIZE)) (t ++ events_at c)).
Proof.
  intros Hc ->. unfold Scheduler.chunk. simpl.
  rewrite Promise_all_any_order
    by (rewrite length_fmap; apply order_fair).
  simpl. rewrite writeBack_processed by exact Hc.
  unfold chunk_events, chunk_progress.
  replace ((c + 1) * BATCH_SIZE) with (c * BATCH_SIZE + BATCH_SIZE) by lia.
  reflexivity.
Qed.

(** Enough fuel lets the loop finish, with every entry upto and two
    setter calls per chunk. *)
Lemma loop_run fuel : forall c u t,
  u = upto (c * BATCH_SIZE) ->
  chunks (length barcodes) <= c + fuel ->
  loop fuel (c * BATCH_SIZE) (mkPass u t)
  = Some (mkPass (task <$> barcodes)
            (t ++ concat (events_at <$> seq c (chunks (length barcodes) - c)))).
Proof.
  induction fuel as [|fuel IH]; intros c u t -> Hfuel.
  all: simpl; rewrite processed_length; case_decide as Hc.
  - apply chunks_lt in Hc. lia.
  - assert (~ c < chunks (length barcodes)) by (rewrite <- chunks_lt; lia).
    replace (chunks (length barcodes) - c) with 0 by lia.
    simpl. rewrite app_nil_r, processed_all by lia. reflexivity.
  - pose proof (proj1 (chunks_lt _ _) Hc) as Hlt.
    rewrite chunk_run by (exact Hc || reflexivity). simpl.
    replace (c * BATCH_SIZE + BATCH_SIZE) with (S c * BATCH_SIZE) by lia.
    rewrite IH; [|f_equal; lia|lia].
    replace (chunks (length barcodes) - c)
      with (S (chunks (length barcodes) - S c)) by lia.
    simpl. rewrite <- !app_assoc. reflexivity.
  - assert (~ c < chunks (length barcodes)) by (rewrite <- chunks_lt; lia).
    replace (chunks (length barcodes) - c) with 0 by lia.
    simpl. rewrite app_nil_r, processed_all by lia. reflexivity.
Qed.

(** The pass always returns; this is its result. *)
Lemma generateBarcodes_under_run :
  generateBarcodes_under order barcodes format dims showNum
  = Some (mkPass (task <$> barcodes)
            ([ SetIsGenerating true;
               SetProgress (mkProgress 0 (validCount barcodes)) ]
             ++ concat (events_at <$> seq 0 (chunks (length barcodes)))
             ++ [ SetIsGenerating false; SetProgress (mkProgress 0 0) ])).
Proof.
  unfold generateBarcodes_under, generateBarcodes_fuel.
  pose proof (loop_run (length barcodes) 0) as Hrun. simpl in Hrun.
  rewrite Hrun; [|reflexivity|apply chunks_le_length].
  simpl. rewrite Nat.sub_0_r. reflexivity.
Qed.

End scheduler_facts.

Section pass_facts.
Import Mapper Renderer Scheduler.
Local Open Scope nat_scope.
Context `{Host}.
Variables (barcodes : list Entry) (format : Format)
          (dims : Dimensions) (showNum : bool).

Local Abbreviation task := (Scheduler.task format dims showNum).
Local Abbreviation upto := (processed barcodes format dims showNum).
Local Abbreviation progress_at :=
  (chunk_progress barcodes format dims showNum).
Local Abbreviation events_at := (chunk_events barcodes format dims showNum).

Lemma generateBarcodes_run :
  generateBarcodes barcodes format dims showNum
  = Some (mkPass (task <$> barcodes)
            ([ SetIsGenerating true;
               SetProgress (mkProgress 0 (validCount barcodes)) ]
             ++ concat (events_at <$> seq 0 (chunks (length barcodes)))
             ++ [ SetIsGenerating false; SetProgress (mkProgress 0 0) ])).
Proof. apply generateBarcodes_under_run, in_order_fair. Qed.

Lemma published_chunks l :
  published (concat (events_at <$> l)) = progress_at <$> l.
Proof.
  induction l as [|c l IH]; [reflexivity|].
  rewrite !fmap_cons. simpl. unfold published in *. simpl. now rewrite IH.
Qed.

Lemma snapshots_chunks l :
  snapshots (concat (events_at <$> l))
  = (fun c => upto ((c + 1) * BATCH_SIZE)) <$> l.
Proof.
  induction l as [|c l IH]; [reflexivity|].
  rewrite !fmap_cons. simpl. unfold snapshots in *. simpl. now rewrite IH.
Qed.

Lemma validCount_app l1 l2 :
  validCount (l1 ++ l2) = validCount l1 + validCount l2.
Proof. unfold validCount. now rewrite filter_app, length_app. Qed.

Lemma validCount_cons b l :
  validCount (b :: l) = (if valid b then 1 else 0) + validCount l.
Proof.
  unfold validCount. rewrite filter_cons.
  destruct (valid b); case_decide; try congruence; reflexivity.
Qed.

Lemma validCount_le_length l : validCount l <= length l.
Proof. apply length_filter. Qed.

Lemma validCount_task_le l : validCount (task <$> l) <= validCount l.
Proof.
  induction l as [|b l IH]; [reflexivity|].
  rewrite fmap_cons, !validCount_cons.
  pose proof (task_valid_le format dims showNum b).
  destruct (valid (task b)), (valid b); lia.
Qed.

Lemma validCount_task_eq l :
  (forall b, b ∈ l -> valid (task b) = valid b) ->
  validCount (task <$> l) = validCount l.
Proof.
  induction l as [|b l IH]; intros Hall; [reflexivity|].
  rewrite fmap_cons, !validCount_cons, IH, Hall; [reflexivity|left|].
  intros b' Hb'. apply Hall. right. exact Hb'.
Qed.

Lemma validCount_processed_le n :
  validCount (upto n) <= validCount barcodes.
Proof.
  unfold processed.
  rewrite <- (take_drop n barcodes) at 3. rewrite !validCount_app.
  pose proof (validCount_task_le (take n barcodes)). lia.
Qed.

Lemma validCount_processed_eq n :
  (forall b, b ∈ barcodes -> valid (task b) = valid b) ->
  validCount (upto n) = validCount barcodes.
Proof.
  intros Hall. unfold processed.
  rewrite <- (take_drop n barcodes) at 3. rewrite !validCount_app.
  rewrite validCount_task_eq; [reflexivity|].
  intros b Hb. apply Hall. rewrite <- (take_drop n barcodes).
  apply elem_of_app. left. exact Hb.
Qed.

Lemma task_valid_returns b :
  (valid b = true -> ~ encoder_throws format b dims showNum) ->
  valid (task b) = valid b.
Proof.
  intros Hok. unfold Scheduler.task.
  destruct (valid b) eqn:Hv; simpl; [|exact Hv].
  destruct (generateSingleBarcode_returns b format dims showNum (Hok eq_refl))
    as (d & s & ->). exact Hv.
Qed.

Lemma validCount_task_failures l :
  validCount (task <$> l)
  + length (filter (fun b => valid b = true /\ valid (task b) = false) l)
  = validCount l.
Proof.
  induction l as [|b l IH]; [reflexivity|].
  rewrite fmap_cons, !validCount_cons, filter_cons.
  pose proof (task_valid_le format dims showNum b) as Hle.
  case_decide as Hfail.
  - destruct Hfail as [-> ->]. simpl. lia.
  - destruct (valid b) eqn:Hb, (valid (task b)) eqn:Ht; simpl; lia.
Qed.

Lemma validCount_processed_failures n :
  validCount (upto n) + failures barcodes format dims showNum n
  = validCount barcodes.
Proof.
  unfold processed, failures.
  rewrite <- (take_drop n barcodes) at 4. rewrite !validCount_app.
  pose proof (validCount_task_failures (take n barcodes)). lia.
Qed.

Lemma encoder_throws_dec b :
  encoder_throws format b dims showNum
  \/ ~ encoder_throws format b dims showNum.
Proof.
  unfold encoder_throws. destruct format.
  - destruct (JsBarcode_canvas _ _) as [canvas|exn]; [right|left; eauto].
    intros [exn Hexn]. discriminate.
  - destruct (JsBarcode_svg _ _) as [tempSvg|exn]; [right|left; eauto].
    intros [exn Hexn]. discriminate.
Qed.

Lemma task_fails_iff b :
  valid b = true ->
  (valid (task b) = false <-> encoder_throws format b dims showNum).
Proof.
  intros Hv. split.
  - intros Hf. destruct (encoder_throws_dec b) as [Ht|Hn]; [exact Ht|].
    rewrite task_valid_returns in Hf by (intros _; exact Hn). congruence.
  - intros Ht. unfold Scheduler.task. rewrite Hv. simpl.
    now rewrite (generateSingleBarcode_threw _ _ _ _ Ht).
Qed.

Lemma validCount_take_le n (l : list Entry) : validCount (take n l) <= n.
Proof.
  etransitivity; [apply validCount_le_length|]. rewrite length_take. lia.
Qed.

(** C1, amended.  The pass publishes [{0, total}] at its start, one
    value per chunk and [{0, 0}] at its end, where [total] is the number
    of entries valid at the start.  After the chunk that starts at index
    [i] the value of [current] is the smaller of [i + BATCH_SIZE], a
    count of all the entries of the chunks so far, valid or not, and the
    number of entries valid in the whole list at that moment, which is
    [total] less the renders that have failed so far (a render fails
    exactly when the encoder throws); [current] never exceeds [total].
    When no render fails, [current] is [min (i + BATCH_SIZE) total], is
    at least the cumulative count of valid entries processed (capped at
    [total]), does not decrease from one chunk to the next, and is
    [total] at the last chunk. *)
Theorem progress_of_pass :
  exists pass,
    generateBarcodes barcodes format dims showNum = Some pass
    /\ published (trace pass)
       = mkProgress 0 (validCount barcodes)
         :: (progress_at <$> seq 0 (chunks (length barcodes)))
         ++ [mkProgress 0 0]
    /\ snapshots (trace pass)
       = (fun c => upto (c * BATCH_SIZE + BATCH_SIZE))
           <$> seq 0 (chunks (length barcodes))
    /\ (forall c,
          progress_at c
          = mkProgress
              (Nat.min (c * BATCH_SIZE + BATCH_SIZE)
                       (validCount (upto (c * BATCH_SIZE + BATCH_SIZE))))
              (validCount barcodes)
          /\ validCount (upto (c * BATCH_SIZE + BATCH_SIZE))
             + failures barcodes format dims showNum
                        (c * BATCH_SIZE + BATCH_SIZE)
             = validCount barcodes
          /\ current (progress_at c) <= total (progress_at c))
    /\ (forall b, valid b = true ->
                  (valid (task b) = false
                   <-> encoder_throws format b dims showNum))
    /\ ((forall b, b ∈ barcodes -> valid b = true ->
                   ~ encoder_throws format b dims showNum) ->
        forall c,
          progress_at c
          = mkProgress (Nat.min (c * BATCH_SIZE + BATCH_SIZE)
                                (validCount barcodes))
                       (validCount barcodes)
          /\ current (claimed_progress barcodes c) <= current (progress_at c)
          /\ current (progress_at c) <= current (progress_at (S c))
          /\ (chunks (length barcodes) <= S c ->
              current (progress_at c) = validCount barcodes)).
Proof.
  eexists. split; [apply generateBarcodes_run|]. cbn [trace].
  assert (Hshape : forall c,
    progress_at c
    = mkProgress
        (Nat.min (c * BATCH_SIZE + BATCH_SIZE)
                 (validCount (upto (c * BATCH_SIZE + BATCH_SIZE))))
        (validCount barcodes)).
  { intros c. unfold chunk_progress.
    replace ((c + 1) * BATCH_SIZE) with (c * BATCH_SIZE + BATCH_SIZE) by lia.
    reflexivity. }
  split; [|split; [|split; [|split; [exact task_fails_iff|]]]].
  - unfold published. simpl. f_equal.
    rewrite omap_app. simpl.
    fold (published (concat (events_at <$> seq 0 (chunks (length barcodes))))).
    rewrite published_chunks. reflexivity.
  - unfold snapshots. simpl. rewrite omap_app. simpl. rewrite app_nil_r.
    fold (snapshots (concat (events_at <$> seq 0 (chunks (length barcodes))))).
    rewrite snapshots_chunks. apply list_fmap_ext. intros _ c _.
    f_equal. lia.
  - intros c. split; [apply Hshape|].
    split; [apply validCount_processed_failures|].
    rewrite Hshape. cbn [current total].
    pose proof (validCount_processed_le (c * BATCH_SIZE + BATCH_SIZE)). lia.
  - intros Hok.
    assert (Heq : forall n, validCount (upto n) = validCount barcodes).
    { intros n. apply validCount_processed_eq.
      intros b Hb. apply task_valid_returns. auto. }
    intros c. rewrite !Hshape, !Heq. cbn [current total].
    split; [reflexivity|]. split; [|split; [lia|]].
    + unfold claimed_progress. cbn [current].
      pose proof (validCount_take_le ((c + 1) * BATCH_SIZE) barcodes). lia.
    + intros Hlast.
      pose proof (chunks_cover (length barcodes)).
      pose proof (validCount_le_length barcodes).
      pose proof BATCH_SIZE_pos. nia.
Qed.

End pass_facts.

(* ================================================================== *)
(** * The pass: progress, failures, order and frame *)

Section pass_examples.
Import Mapper Renderer Scheduler Samples.
Local Open Scope nat_scope.

Example well_checked_good : well_checked "012345678905" = true.
Proof. reflexivity. Qed.

Example well_checked_unchecked : well_checked "123456789013" = false.
Proof. reflexivity. Qed.

(** C1, as stated, fails.  With one invalid entry ahead of fifty valid
    ones, the first chunk holds 49 valid entries, yet the progress
    published after it has [current = 50]: the invalid entry is counted.
    [current] equals [total] after the first chunk and again after the
    last. *)
Lemma progress_counts_skipped_entries :
  exists pass,
    generateBarcodes (H := accepting) short_then_fifty png default_dims true
    = Some pass
    /\ published (trace pass)
       = [ mkProgress 0 50; mkProgress 50 50; mkProgress 50 50;
           mkProgress 0 0 ]
    /\ claimed_progress short_then_fifty 0 = mkProgress 49 50
    /\ published (trace pass) !! 1 <> Some (claimed_progress short_then_fifty 0).
Proof.
  eexists. split; [vm_compute; reflexivity|].
  split; [vm_compute; reflexivity|].
  split; [vm_compute; reflexivity|].
  vm_compute. discriminate.
Qed.

(** When renders fail, [current] can even go down, below the count of
    the valid entries processed: after the second chunk all sixty have
    been processed and [current] is ten. *)
Example progress_can_decrease :
  exists pass,
    generateBarcodes (H := checking) ten_good_fifty_unchecked png
                     default_dims true
    = Some pass
    /\ published (trace pass)
       = [ mkProgress 0 60; mkProgress 50 60; mkProgress 10 60;
           mkProgress 0 0 ]
    /\ claimed_progress ten_good_fifty_unchecked 1 = mkProgress 60 60
    /\ failures (H := checking) ten_good_fifty_unchecked png default_dims
                true 100 = 50.
Proof.
  eexists. split; [vm_compute; reflexivity|].
  split; [vm_compute; reflexivity|].
  split; vm_compute; reflexivity.
Qed.

End pass_examples.

Section pass_claims.
Import Mapper Renderer Scheduler.
Local Open Scope nat_scope.
Context `{Host}.
Variables (barcodes : list Entry) (format : Format)
          (dims : Dimensions) (showNum : bool).

Local Abbreviation task := (Scheduler.task format dims showNum).
Local Abbreviation upto := (processed barcodes format dims showNum).

Lemma numbers_task (l : list Entry) :
  number <$> (task <$> l) = number <$> l.
Proof.
  rewrite <- list_fmap_compose. apply list_fmap_ext.
  intros i b _. apply task_number.
Qed.

Lemma numbers_processed n : number <$> upto n = number <$> barcodes.
Proof.
  unfold processed. rewrite fmap_app, numbers_task, <- fmap_app.
  now rewrite take_drop.
Qed.

(** C6.  When the encoder throws for a valid entry, that entry comes
    back invalid, with the reason "Generation failed" and no artifact.
    The pass still returns, having made its last setter call, and every
    entry of the list, in this chunk and in the later ones, has been
    processed. *)
Theorem render_failure_is_isolated (k : nat) (b : Entry) :
  barcodes !! k = Some b ->
  valid b = true ->
  encoder_throws format b dims showNum ->
  generateSingleBarcode b format dims showNum
  = mkEntry (number b) false (Some "Generation failed") None None
  /\ exists pass,
       generateBarcodes barcodes format dims showNum = Some pass
       /\ updatedBarcodes pass !! k
          = Some (mkEntry (number b) false (Some "Generation failed") None None)
       /\ length (updatedBarcodes pass) = length barcodes
       /\ (forall j b', barcodes !! j = Some b' ->
                        updatedBarcodes pass !! j = Some (task b'))
       /\ last (trace pass) = Some (SetProgress (mkProgress 0 0)).
Proof.
  intros Hk Hv Hthrow.
  pose proof (generateSingleBarcode_threw _ _ _ _ Hthrow) as Hfail.
  split; [exact Hfail|].
  eexists. split; [apply generateBarcodes_run|]. cbn [updatedBarcodes trace].
  split; [|split; [|split]].
  - rewrite list_lookup_fmap, Hk. simpl. unfold Scheduler.task.
    rewrite Hv. simpl. now rewrite Hfail.
  - apply length_fmap.
  - intros j b' Hj. now rewrite list_lookup_fmap, Hj.
  - change [SetIsGenerating false; SetProgress (mkProgress 0 0)]
      with ([SetIsGenerating false] ++ [SetProgress (mkProgress 0 0)]).
    rewrite !app_assoc. apply last_snoc.
Qed.

(** C7.  In whatever order the renders of a chunk complete, the pass
    returns the same list as when they complete in array order; the
    returned list, and every list published on the way, carries at each
    index the code number the input has at that index. *)
Theorem pass_keeps_input_order (order : nat -> nat -> list nat) :
  fair order ->
  exists pass,
    generateBarcodes_under order barcodes format dims showNum = Some pass
    /\ generateBarcodes barcodes format dims showNum = Some pass
    /\ number <$> updatedBarcodes pass = number <$> barcodes
    /\ Forall (fun l => number <$> l = number <$> barcodes)
              (snapshots (trace pass))
    /\ (forall k b, barcodes !! k = Some b ->
                    number <$> updatedBarcodes pass !! k = Some (number b)).
Proof.
  intros Hfair. eexists.
  split; [apply generateBarcodes_under_run, Hfair|].
  split; [apply generateBarcodes_run|]. cbn [updatedBarcodes trace].
  split; [apply numbers_task|]. split.
  - unfold snapshots. simpl. rewrite omap_app. simpl. rewrite app_nil_r.
    fold (snapshots (concat (chunk_events barcodes format dims showNum
                               <$> seq 0 (chunks (length barcodes))))).
    rewrite snapshots_chunks. apply Forall_fmap, Forall_forall.
    intros c _. apply numbers_processed.
  - intros k b Hk. rewrite list_lookup_fmap, Hk. simpl.
    now rewrite task_number.
Qed.

(** C10.  The pass returns a list of the same length; at each index the
    entry keeps its number; an entry that was invalid at the start is
    returned as it was. *)
Theorem pass_is_a_frame :
  exists pass,
    generateBarcodes barcodes format dims showNum = Some pass
    /\ length (updatedBarcodes pass) = length barcodes
    /\ (forall k b, barcodes !! k = Some b ->
          exists b', updatedBarcodes pass !! k = Some b'
                     /\ number b' = number b
                     /\ (valid b = false -> b' = b)).
Proof.
  eexists. split; [apply generateBarcodes_run|]. cbn [updatedBarcodes].
  split; [apply length_fmap|].
  intros k b Hk. exists (task b).
  rewrite list_lookup_fmap, Hk.
  split; [reflexivity|]. split; [apply task_number|apply task_invalid].
Qed.

End pass_claims.

Section pass_witnesses.
Import Mapper Renderer Scheduler Samples.
Local Open Scope nat_scope.

Lemma progress_of_pass_witness :
  (forall b, b ∈ replicate 120 good -> valid b = true ->
             ~ encoder_throws (H := accepting) png b default_dims true)
  /\ exists pass,
       generateBarcodes (H := accepting) (replicate 120 good) png
                        default_dims true = Some pass
       /\ published (trace pass)
          = [ mkProgress 0 120; mkProgress 50 120; mkProgress 100 120;
              mkProgress 120 120; mkProgress 0 0 ].
Proof.
  assert (Hok : forall b, b ∈ replicate 120 good -> valid b = true ->
                  ~ encoder_throws (H := accepting) png b default_dims true)
    by (intros b _ _ [exn Hexn]; discriminate Hexn).
  split; [exact Hok|].
  destruct (progress_of_pass (H := accepting) (replicate 120 good) png
              default_dims true)
    as (pass & Hrun & Hpub & _ & _ & _ & Hall).
  exists pass. split; [exact Hrun|]. rewrite Hpub.
  change (chunks (length (replicate 120 good))) with 3.
  cbn [seq fmap list_fmap].
  rewrite (proj1 (Hall Hok 0)), (proj1 (Hall Hok 1)), (proj1 (Hall Hok 2)).
  reflexivity.
Defined.

Lemma render_failure_is_isolated_witness :
  [good; unchecked; good] !! 1 = Some unchecked
  /\ valid unchecked = true
  /\ encoder_throws (H := checking) png unchecked default_dims true
  /\ exists pass,
       generateBarcodes (H := checking) [good; unchecked; good] png
                        default_dims true = Some pass
       /\ updatedBarcodes pass !! 1
          = Some (mkEntry "123456789013" false (Some "Generation failed")
                          None None)
       /\ length (updatedBarcodes pass) = 3.
Proof.
  assert (Hthrow : encoder_throws (H := checking) png unchecked default_dims
                                  true)
    by (eexists; reflexivity).
  split; [reflexivity|]. split; [reflexivity|]. split; [exact Hthrow|].
  destruct (render_failure_is_isolated (H := checking)
              [good; unchecked; good] png default_dims true 1 unchecked
              eq_refl eq_refl Hthrow)
    as (_ & pass & Hrun & Hk & Hlen & _).
  exists pass. split; [exact Hrun|]. split; [exact Hk|exact Hlen].
Defined.

Lemma pass_keeps_input_order_witness :
  fair backwards
  /\ exists pass,
       generateBarcodes_under (H := accepting) backwards short_then_fifty
                              png default_dims true = Some pass
       /\ number <$> updatedBarcodes pass = number <$> short_then_fifty.
Proof.
  assert (Hfair : fair backwards)
    by (intros i n; apply reverse_Permutation).
  split; [exact Hfair|].
  destruct (pass_keeps_input_order (H := accepting) short_then_fifty png
              default_dims true backwards Hfair)
    as (pass & Hrun & _ & Hnum & _).
  exists pass. split; [exact Hrun|exact Hnum].
Defined.

End pass_witnesses.

(* ================================================================== *)
(** * The renderer: exact size, white background, centring *)

Section renderer_claims.
Import Mapper Renderer.
Local Open Scope Z_scope.
Context `{Host}.

Example parseInt_px : parseInt (Some "242px") = Some 242.
Proof. reflexivity. Qed.

Example parseInt_null : parseInt None = None.
Proof. reflexivity. Qed.

Example parseInt_hex : parseInt (Some " -0x1F") = Some (-31).
Proof. reflexivity. Qed.

Example split_data_url :
  JsString.split ","%char "data:image/png;base64,iVBORw0KGgo=" !! 1%nat
  = Some "iVBORw0KGgo=".
Proof. reflexivity. Qed.

Lemma moveChildren_element remaining : forall tag a c,
  moveChildren remaining (Element tag a c) = Element tag a (c ++ remaining).
Proof.
  induction remaining as [|n rest IH]; intros tag a c; simpl.
  - now rewrite app_nil_r.
  - rewrite IH, <- app_assoc. reflexivity.
Qed.

Lemma centred_offset (target actual : Z) :
  let x := (target - actual) / 2 in
  2 * x <= target - actual <= 2 * x + 1.
Proof.
  simpl. pose proof (Z.mul_div_le (target - actual) 2).
  pose proof (Z.mul_succ_div_gt (target - actual) 2). lia.
Qed.

(** The numeral of a positive number, written in front of [s]. *)
Lemma pretty_N_go_app (x : N) : forall s t,
  pretty_N_go x s +:+ t = pretty_N_go x (s +:+ t).
Proof.
  induction (N.lt_wf_0 x) as [x _ IH]. intros s t.
  destruct (decide (x = 0)%N) as [->|Hx].
  - now rewrite !pretty_N_go_0.
  - rewrite (pretty_N_go_step x s), (pretty_N_go_step x (s +:+ t)) by lia.
    rewrite IH by (apply N.div_lt; lia). reflexivity.
Qed.

Lemma digit_value_pretty (d : N) :
  (d < 10)%N -> digit_value 10 (pretty_N_char d) = Some (Z.of_N d).
Proof.
  intros Hd.
  assert (Hcases : In d [0; 1; 2; 3; 4; 5; 6; 7; 8; 9]%N).
  { simpl. lia. }
  simpl in Hcases.
  repeat (destruct Hcases as [<-|Hcases]; [reflexivity|]).
  destruct Hcases.
Qed.

(** A numeral starts with a digit other than zero. *)
Lemma pretty_N_go_head (x : N) : forall s,
  (0 < x)%N ->
  exists d r, (1 <= d <= 9)%N /\ pretty_N_go x s = String (pretty_N_char d) r.
Proof.
  induction (N.lt_wf_0 x) as [x _ IH]. intros s Hx.
  rewrite pretty_N_go_step by exact Hx.
  destruct (decide (x `div` 10 = 0)%N) as [Hq|Hq].
  - rewrite Hq, pretty_N_go_0. exists (x `mod` 10)%N, s.
    split; [|reflexivity].
    pose proof (N.div_mod x 10 ltac:(lia)).
    pose proof (N.mod_upper_bound x 10 ltac:(lia)). lia.
  - apply IH; [apply N.div_lt; lia|].
    destruct (x `div` 10)%N; [congruence|lia].
Qed.

(** Reading a numeral gives its number back. *)
Lemma parse_digits_pretty (x : N) :
  (0 < x)%N ->
  exists k, 0 <= k /\ forall acc t,
    parse_digits 10 acc (pretty_N_go x t)
    = parse_digits 10 (Some (default 0 acc * 10 ^ k + Z.of_N x)) t.
Proof.
  induction (N.lt_wf_0 x) as [x _ IH]. intros Hx.
  pose proof (N.div_mod x 10 ltac:(lia)) as Hdm.
  pose proof (N.mod_upper_bound x 10 ltac:(lia)) as Hr.
  destruct (decide (x `div` 10 = 0)%N) as [Hq|Hq].
  - exists 1. split; [lia|]. intros acc t.
    rewrite pretty_N_go_step, Hq, pretty_N_go_0 by exact Hx.
    cbn [parse_digits]. rewrite digit_value_pretty by exact Hr.
    do 2 f_equal. lia.
  - destruct (IH (x `div` 10)%N) as (k & Hk & Hgo);
      [apply N.div_lt; lia|lia|].
    exists (k + 1). split; [lia|]. intros acc t.
    rewrite pretty_N_go_step, Hgo by exact Hx.
    cbn [parse_digits]. rewrite digit_value_pretty by exact Hr.
    cbn [default]. do 2 f_equal.
    rewrite Z.pow_add_r by lia. change (10 ^ 1) with 10.
    rewrite Z.mul_assoc. generalize (default 0 acc * 10 ^ k). intros a.
    unfold id. lia.
Qed.

Lemma parseInt_digit_head (d : N) (r : string) :
  (1 <= d <= 9)%N ->
  parseInt (Some (String (pretty_N_char d) r))
  = parse_digits 10 None (String (pretty_N_char d) r).
Proof.
  intros Hd.
  assert (Hcases : In d [1; 2; 3; 4; 5; 6; 7; 8; 9]%N).
  { simpl. lia. }
  simpl in Hcases.
  repeat (destruct Hcases as [<-|Hcases]; [reflexivity|]).
  destruct Hcases.
Qed.

(** [parseInt] reads the number of a size in pixels. *)
Lemma parseInt_pixels (n : Z) : 0 <= n -> parseInt (Some (px n)) = Some n.
Proof.
  intros Hn. destruct n as [|p|p]; [reflexivity| |lia].
  unfold px. change (pretty (Z.pos p)) with (pretty_N_go (N.pos p) "").
  rewrite pretty_N_go_app. change ("" +:+ "px") with "px".
  destruct (pretty_N_go_head (N.pos p) "px") as (d & r & Hd & Hhead);
    [lia|].
  destruct (parse_digits_pretty (N.pos p)) as (k & _ & Hgo); [lia|].
  rewrite Hhead, parseInt_digit_head, <- Hhead, Hgo by exact Hd.
  reflexivity.
Qed.

Lemma or_else_size_read (target : Z) (attr : option string) (n : Z) :
  size_read target attr n -> or_else (parseInt attr) target = n.
Proof.
  intros [m Hm| |].
  - rewrite parseInt_pixels by lia. unfold or_else.
    destruct (Z.eqb_spec m 0); [lia|reflexivity].
  - reflexivity.
  - reflexivity.
Qed.

(** The document [render_svg] builds, once the sizes it reads are known. *)
Lemma render_svg_document (barcode : Entry) (W Ht : Z) (o : BarcodeOptions)
      (tempSvg : Node) (aw ah : Z) :
  JsBarcode_svg (number barcode) o = Returned tempSvg ->
  or_else (parseInt (getAttribute "width" tempSvg)) W = aw ->
  or_else (parseInt (getAttribute "height" tempSvg)) Ht = ah ->
  render_svg barcode W Ht o
  = Returned (mkEntry (number barcode) (valid barcode) (error barcode) None
                (Some (outerHTML
                         (centred_document W Ht aw ah (children tempSvg))))).
Proof.
  intros Henc Hw Hh. unfold render_svg. rewrite Henc, Hw, Hh.
  do 3 f_equal.
  unfold centred_document, finalSvg_frame, createElementNS.
  cbn [setAttribute appendChild assoc_set app String.eqb Ascii.eqb
       Bool.eqb]. fold (bgRect W Ht).
  case_decide as Hsame.
  - destruct Hsame as [-> ->]. rewrite !Z.eqb_refl. cbn [negb orb].
    rewrite moveChildren_element. reflexivity.
  - assert (Hb : negb (aw =? W) || negb (ah =? Ht) = true).
    { destruct (Z.eqb_spec aw W), (Z.eqb_spec ah Ht);
        try reflexivity. destruct Hsame. split; assumption. }
    rewrite Hb. cbn [setAttribute assoc_set appendChild].
    rewrite moveChildren_element. reflexivity.
Qed.


End renderer_claims.

Section renderer_examples.
Import Mapper Renderer Samples.
Local Open Scope Z_scope.



End renderer_examples.

(* ================================================================== *)
(** * Strings and file names *)

Section file_names.
Import Exporter.

Lemma string_app_length (s t : string) :
  String.length (s +:+ t) = (String.length s + String.length t)%nat.
Proof. induction s as [|c s IH]; simpl; [reflexivity|now rewrite IH]. Qed.

Lemma string_app_cancel_r (t s1 s2 : string) :
  s1 +:+ t = s2 +:+ t -> s1 = s2.
Proof.
  revert s2. induction s1 as [|c1 s1 IH]; intros [|c2 s2] Heq; simpl in *.
  - reflexivity.
  - apply (f_equal String.length) in Heq.
    rewrite !string_app_length in Heq. simpl in Heq. lia.
  - apply (f_equal String.length) in Heq.
    rewrite !string_app_length in Heq. simpl in Heq. lia.
  - injection Heq as -> Heq. f_equal. apply IH. exact Heq.
Qed.

End file_names.

(* ================================================================== *)
(** * The session: settings and the artifact invariant *)

Section session_claims.
Import Mapper Renderer Scheduler Session.
Context `{Host}.

Lemma reachable_drain t : forall s,
  reachable s -> pending s = t -> reachable (drain t s).
Proof.
  induction t as [|e rest IH]; intros s Hs Hp; simpl; [exact Hs|].
  apply IH.
  - eapply reachable_step; [exact Hs|]. apply step_setter. exact Hp.
  - destruct e; reflexivity.
Qed.

Section entry_invariant.
Variable P : Entry -> Prop.
Hypothesis P_processLine : forall line, P (Validator.processLine line).
Hypothesis P_task :
  forall format dims showNum b, P b -> P (task format dims showNum b).

Lemma P_processed barcodes format dims showNum n :
  Forall P barcodes -> Forall P (processed barcodes format dims showNum n).
Proof.
  intros Hall. unfold processed. apply Forall_app. split.
  - apply Forall_fmap. eapply Forall_impl; [apply Forall_take, Hall|].
    intros b Hb. apply P_task, Hb.
  - apply Forall_drop, Hall.
Qed.

Lemma P_pass barcodes format dims showNum pass :
  Forall P barcodes ->
  generateBarcodes barcodes format dims showNum = Some pass ->
  pending_lists P (trace pass).
Proof.
  intros Hall. rewrite generateBarcodes_run. intros [= <-].
  unfold pending_lists, snapshots. simpl. rewrite omap_app. simpl.
  rewrite app_nil_r.
  fold (snapshots (concat (chunk_events barcodes format dims showNum
                             <$> seq 0 (chunks (length barcodes))))).
  rewrite snapshots_chunks. apply Forall_fmap, Forall_forall.
  intros c _. apply P_processed, Hall.
Qed.

(** [P] holds of every entry of every reachable state. *)
Lemma reachable_entries s :
  reachable s -> Forall P (barcodes s) /\ pending_lists P (pending s).
Proof.
  induction 1 as [|s s' Hreach [IHb IHp] Hstep].
  - split; constructor.
  - destruct Hstep as [s s' Hset|text s|s dims pass _ _ _ _ Hgen|e rest s Hp].
    + destruct Hset; split; assumption.
    + split; [|exact IHp]. simpl. unfold Validator.processedBarcodes.
      apply Forall_fmap, Forall_forall. intros line _. apply P_processLine.
    + split; [exact IHb|]. simpl. eapply P_pass; eassumption.
    + rewrite Hp in IHp. unfold pending_lists, snapshots in *.
      destruct e; simpl in *; try (split; assumption).
      inversion IHp; subst. split; assumption.
Qed.

End entry_invariant.

Lemma processLine_artifact_only_if_valid line :
  artifact_only_if_valid (Validator.processLine line).
Proof. intros [[x Hx]|[x Hx]]; discriminate. Qed.

Lemma task_artifact_only_if_valid format dims showNum b :
  artifact_only_if_valid b ->
  artifact_only_if_valid (task format dims showNum b).
Proof.
  intros Hb. unfold task. destruct (valid b) eqn:Hv; simpl; [|exact Hb].
  destruct (generateSingleBarcode_shape b format dims showNum)
    as [->|(d & s & -> & _)].
  - intros [[x Hx]|[x Hx]]; discriminate.
  - intros _. exact Hv.
Qed.

(** C9, amended.  A change of a setting (size, format, show-numbers,
    ratio lock) leaves the entry list as it is: no artifact is cleared.
    In every reachable state an entry has a non-null [dataUrl] or
    [svgString] only if it is valid. *)
Theorem artifact_only_on_valid_entries :
  (forall s s', setting_change s s' -> barcodes s' = barcodes s)
  /\ (forall s, reachable s -> Forall artifact_only_if_valid (barcodes s)).
Proof.
  split.
  - intros s s' Hset. destruct Hset; reflexivity.
  - intros s Hs.
    apply (reachable_entries artifact_only_if_valid
             processLine_artifact_only_if_valid
             task_artifact_only_if_valid s Hs).
Qed.

End session_claims.

Section artifacts_are_documents.
Import Mapper Renderer Scheduler Session.
Context `{Host}.
(** In every reachable state a valid entry holds a twelve-digit code, so
    the file names of the archive have no path separator. *)
Lemma reachable_valid_numbers s :
  reachable s ->
  Forall (fun b => valid b = true ->
                   Validator.validateBarcode (number b) = true) (barcodes s).
Proof.
  intros Hs.
  apply (reachable_entries
           (fun b => valid b = true ->
                     Validator.validateBarcode (number b) = true)) in Hs;
    [apply Hs| |].
  - intros line Hv. exact Hv.
  - intros format dims showNum b Hb Hv. rewrite task_number.
    apply Hb. eapply task_valid_le. exact Hv.
Qed.

(** A data URL starts with [data:]; the markup of an element starts
    with its tag. *)
Hypothesis toDataURL_nonempty : forall c, toDataURL c <> "".
Hypothesis outerHTML_nonempty : forall n, outerHTML n <> "".

Lemma task_artifacts_nonempty format dims showNum b :
  artifacts_nonempty b -> artifacts_nonempty (task format dims showNum b).
Proof.
  intros Hb. unfold task. destruct (valid b); simpl; [|exact Hb].
  unfold generateSingleBarcode, render_png, render_svg.
  destruct format.
  - destruct (JsBarcode_canvas _ _) as [canvas|exn];
      [|split; discriminate].
    destruct (_ || _); simpl; split; try discriminate;
      intros [= Heq]; eapply toDataURL_nonempty; exact Heq.
  - destruct (JsBarcode_svg _ _) as [tempSvg|exn];
      [|split; discriminate].
    simpl; split; try discriminate.
    intros [= Heq]; eapply outerHTML_nonempty; exact Heq.
Qed.

(** The entry lists the exporter is given satisfy its precondition. *)
Lemma reachable_artifacts_nonempty s :
  reachable s -> Forall artifacts_nonempty (barcodes s).
Proof.
  intros Hs.
  apply (reachable_entries artifacts_nonempty) in Hs; [apply Hs| |].
  - intros line. split; discriminate.
  - apply task_artifacts_nonempty.
Qed.

End artifacts_are_documents.

Section session_examples.
Import Mapper Renderer Scheduler Session Exporter Samples.

Lemma after_pass_reachable : reachable (H := accepting) after_pass.
Proof.
  pose (s1 := handleFileUpload "012345678905" initial).
  assert (H1 : reachable (H := accepting) s1)
    by (eapply reachable_step; [apply reachable_initial|apply step_upload]).
  pose proof (generateBarcodes_run (H := accepting) (barcodes s1) png
                default_dims true) as Hrun.
  match type of Hrun with _ = Some ?p => set (pass := p) in * end.
  assert (H2 : reachable (H := accepting) (with_pending (trace pass) s1)).
  { eapply reachable_step; [exact H1|].
    apply (step_generate s1 default_dims pass);
      [reflexivity|reflexivity| |vm_compute; reflexivity|exact Hrun].
    apply Nat.ltb_lt. reflexivity. }
  pose proof (reachable_drain (trace pass) _ H2 eq_refl) as H3.
  replace after_pass with (drain (trace pass) (with_pending (trace pass) s1));
    [exact H3|].
  vm_compute. reflexivity.
Qed.

(** C9, as stated, fails: after a pass, changing the width (with the
    ratio locked, the height too) leaves the rendered artifact of the old
    size in place. *)
Lemma artifact_survives_size_change :
  reachable (H := accepting) after_pass
  /\ setting_change (H := accepting) after_pass
       (handleWidthChange (H := accepting) "3" after_pass)
  /\ barcodes (handleWidthChange (H := accepting) "3" after_pass)
     = [good_rendered]
  /\ is_Some (dataUrl good_rendered)
  /\ Mapper.dimensions
       (widthCm (handleWidthChange (H := accepting) "3" after_pass))
       (heightCm (handleWidthChange (H := accepting) "3" after_pass))
     = Some (mkDimensions 354 154 3
               (heightCm (handleWidthChange (H := accepting) "3" after_pass))).
Proof.
  split; [apply after_pass_reachable|].
  split; [constructor|].
  split; [reflexivity|].
  split; [eexists; reflexivity|].
  vm_compute. reflexivity.
Qed.

(** The three-line file of the end-to-end scenario, with DOS line ends. *)
Definition three_lines : string :=
  "012345678905" +:+ String "013" (String "010"
    ("bad" +:+ String "013" (String "010"
       ("123456789012" +:+ String "013" (String "010" ""))))).

Example end_to_end_scenario :
  Validator.processedBarcodes three_lines
  = [ mkEntry "012345678905" true None None None;
      mkEntry "bad" false (Some "Invalid: must be 12 digits") None None;
      mkEntry "123456789012" true None None None ]
  /\ exists pass,
       generateBarcodes (H := checking) (Validator.processedBarcodes three_lines)
                        svg default_dims true = Some pass
       /\ dom (downloadZip (updatedBarcodes pass) svg).1
          = {[ "012345678905.svg"; "123456789012.svg" ]}.
Proof.
  split; [vm_compute; reflexivity|].
  eexists. split; [vm_compute; reflexivity|].
  vm_compute. reflexivity.
Qed.

Example archive_example :
  (downloadZip [good_rendered; short; good] png).1
  = {[ "012345678905.png" := Base64 (Some "260x113") ]}.
Proof. vm_compute. reflexivity. Qed.

End session_examples.

(* ================================================================== *)
(** * Reading the file: lines, white space, fresh entries *)

Section upload_facts.
Import Validator.

Lemma chars_app (s t : string) : chars (s +:+ t) = chars s ++ chars t.
Proof. induction s as [|c s IH]; simpl; [reflexivity|]. unfold chars in *. simpl. now rewrite IH. Qed.

Lemma chars_inj (s t : string) : chars s = chars t -> s = t.
Proof.
  intros Heq. rewrite <- (string_of_list_ascii_of_string s),
    <- (string_of_list_ascii_of_string t). unfold chars in Heq. now rewrite Heq.
Qed.

Lemma chars_of_list (l : list ascii) : chars (string_of_list_ascii l) = l.
Proof. apply list_ascii_of_string_of_list_ascii. Qed.

Lemma chars_trimStart (s : string) :
  chars (JsString.trimStart s) = skip_spaces (chars s).
Proof.
  induction s as [|c s IH]; simpl; [reflexivity|].
  destruct (JsString.is_space c); [exact IH|reflexivity].
Qed.

Lemma chars_trimEnd (s : string) :
  chars (JsString.trimEnd s) = rev (skip_spaces (rev (chars s))).
Proof.
  unfold JsString.trimEnd, JsString.reverse.
  rewrite chars_of_list, chars_trimStart, chars_of_list. reflexivity.
Qed.

Lemma chars_trim (s : string) :
  chars (JsString.trim s)
  = rev (skip_spaces (rev (skip_spaces (chars s)))).
Proof. unfold JsString.trim. now rewrite chars_trimEnd, chars_trimStart. Qed.

(** What is skipped is white space; what is left is a suffix that does
    not start with white space. *)
Lemma skip_spaces_split (l : list ascii) :
  exists skipped,
    l = skipped ++ skip_spaces l
    /\ Forall (fun c => JsString.is_space c = true) skipped.
Proof.
  induction l as [|c l (skipped & Heq & Hall)]; simpl.
  - exists []. split; [reflexivity|constructor].
  - destruct (JsString.is_space c) eqn:Hc.
    + exists (c :: skipped). split; [simpl; now rewrite <- Heq|].
      constructor; assumption.
    + exists []. split; [reflexivity|constructor].
Qed.

Lemma skip_spaces_head (l : list ascii) c :
  head (skip_spaces l) = Some c -> JsString.is_space c = false.
Proof.
  induction l as [|a l IH]; simpl; [discriminate|].
  destruct (JsString.is_space a) eqn:Ha; [exact IH|].
  simpl. intros [= <-]. exact Ha.
Qed.

Lemma skip_spaces_blank (l : list ascii) :
  Forall (fun c => JsString.is_space c = true) l -> skip_spaces l = [].
Proof.
  induction 1 as [|c l Hc _ IH]; simpl; [reflexivity|]. now rewrite Hc.
Qed.

Lemma skip_spaces_app_blank (a l : list ascii) :
  Forall (fun c => JsString.is_space c = true) a ->
  skip_spaces (a ++ l) = skip_spaces l.
Proof.
  induction 1 as [|c a Hc _ IH]; simpl; [reflexivity|]. now rewrite Hc.
Qed.

Lemma skip_spaces_tight (l : list ascii) c :
  head l = Some c -> JsString.is_space c = false -> skip_spaces l = l.
Proof.
  destruct l as [|a l]; simpl; [discriminate|].
  intros [= ->] ->. reflexivity.
Qed.

Lemma head_rev {A} (l : list A) : head (rev l) = last l.
Proof.
  induction l as [|a l IH] using rev_ind; [reflexivity|].
  rewrite rev_app_distr, last_snoc. reflexivity.
Qed.

Lemma last_rev {A} (l : list A) : last (rev l) = head l.
Proof. rewrite <- head_rev, rev_involutive. reflexivity. Qed.

(** The trimmed string is a piece of the string: white space, then the
    trimmed string, then white space. *)
Lemma trim_split (s : string) :
  exists before after,
    chars s = before ++ chars (JsString.trim s) ++ after
    /\ Forall (fun c => JsString.is_space c = true) before
    /\ Forall (fun c => JsString.is_space c = true) after.
Proof.
  rewrite chars_trim.
  destruct (skip_spaces_split (chars s)) as (before & Hb & Hball).
  destruct (skip_spaces_split (rev (skip_spaces (chars s))))
    as (after & Ha & Haall).
  exists before, (rev after). split; [|split].
  - rewrite Hb at 1. f_equal.
    rewrite <- (rev_involutive (skip_spaces (chars s))) at 1.
    rewrite Ha at 1. now rewrite rev_app_distr.
  - exact Hball.
  - apply Forall_forall. intros c Hc.
    rewrite Forall_forall in Haall. apply Haall.
    apply list_elem_of_In. apply list_elem_of_In in Hc.
    apply (proj2 (in_rev after c)). exact Hc.
Qed.

Lemma trim_tight (s : string) :
  JsString.trim s <> "" -> tight (JsString.trim s).
Proof.
  intros Hne.
  assert (Hne' : chars (JsString.trim s) <> []).
  { intros Hnil. apply Hne. apply chars_inj. exact Hnil. }
  unfold tight. rewrite chars_trim in *.
  set (t := skip_spaces (chars s)) in *.
  destruct (skip_spaces_split (rev t)) as (sk & Hsk & _).
  set (u := skip_spaces (rev t)) in *.
  assert (Ht : t = rev u ++ rev sk).
  { rewrite <- (rev_involutive t), Hsk, rev_app_distr. reflexivity. }
  split.
  - destruct (rev u) as [|c r] eqn:Hr; [destruct Hne'; reflexivity|].
    exists c. split; [reflexivity|].
    apply (skip_spaces_head (chars s)). fold t. rewrite Ht. reflexivity.
  - rewrite last_rev. destruct u as [|c u'] eqn:Hu;
      [destruct Hne'; reflexivity|].
    exists c. split; [reflexivity|].
    apply (skip_spaces_head (rev t)). fold u. rewrite Hu. reflexivity.
Qed.

Lemma split_nonempty sep (s : string) : JsString.split sep s <> [].
Proof.
  destruct s as [|c s]; simpl; [discriminate|].
  destruct (Ascii.eqb c sep); [discriminate|].
  destruct (JsString.split sep s); discriminate.
Qed.

Lemma split_no_sep sep (s : string) :
  sep ∉ chars s -> JsString.split sep s = [s].
Proof.
  induction s as [|c s IH]; simpl; intros Hno; [reflexivity|].
  destruct (Ascii.eqb_spec c sep) as [->|Hne].
  - destruct Hno. left.
  - rewrite IH; [reflexivity|]. intros Hin. apply Hno. right. exact Hin.
Qed.

Lemma split_app_sep sep (s1 s2 : string) :
  JsString.split sep (s1 +:+ String sep s2)
  = JsString.split sep s1 ++ JsString.split sep s2.
Proof.
  induction s1 as [|c s1 IH]; simpl.
  - rewrite Ascii.eqb_refl. reflexivity.
  - rewrite IH. destruct (Ascii.eqb c sep); [reflexivity|].
    pose proof (split_nonempty sep s1).
    destruct (JsString.split sep s1); [contradiction|reflexivity].
Qed.

(** A piece holds characters of the text only, and never the separator. *)
Lemma split_pieces sep (s : string) :
  Forall (fun piece => forall c, c ∈ chars piece -> c ∈ chars s /\ c <> sep)
         (JsString.split sep s).
Proof.
  induction s as [|c s IH]; simpl.
  - constructor; [intros c Hc; inversion Hc|constructor].
  - assert (Hweak : Forall (fun piece => forall a, a ∈ chars piece ->
                               a ∈ chars (String c s) /\ a <> sep)
                           (JsString.split sep s)).
    { eapply Forall_impl; [exact IH|]. intros piece Hp a Ha.
      destruct (Hp a Ha). split; [right|]; assumption. }
    destruct (Ascii.eqb_spec c sep) as [->|Hne].
    + constructor; [intros a Ha; inversion Ha|exact Hweak].
    + destruct (JsString.split sep s) as [|h t]; [constructor; [|constructor]|].
      * intros a Ha. apply list_elem_of_singleton in Ha as ->.
        split; [left|exact Hne].
      * inversion Hweak as [|? ? Hh Ht]; subst. constructor; [|exact Ht].
        intros a Ha. apply elem_of_cons in Ha as [->|Ha];
          [split; [left|exact Hne]|apply Hh, Ha].
Qed.

Lemma trim_blank (s : string) : blank s -> JsString.trim s = "".
Proof.
  intros Hb. apply chars_inj. rewrite chars_trim.
  unfold blank in Hb. rewrite (skip_spaces_blank _ Hb). reflexivity.
Qed.

Lemma trim_padded (a d b : string) :
  blank a -> blank b -> tight d -> JsString.trim (a +:+ d +:+ b) = d.
Proof.
  intros Ha Hb [(c1 & Hh & Hc1) (c2 & Hl & Hc2)]. apply chars_inj.
  rewrite chars_trim, !chars_app.
  rewrite (skip_spaces_app_blank _ _ Ha).
  rewrite (skip_spaces_tight (chars d ++ chars b) c1); [| |exact Hc1].
  - rewrite rev_app_distr, skip_spaces_app_blank.
    + rewrite (skip_spaces_tight (rev (chars d)) c2);
        [apply rev_involutive|now rewrite head_rev|exact Hc2].
    + apply Forall_forall. intros c Hc. unfold blank in Hb.
      rewrite Forall_forall in Hb. apply Hb.
      apply list_elem_of_In. apply (proj2 (in_rev (chars b) c)).
      apply list_elem_of_In. exact Hc.
  - destruct (chars d); [discriminate|exact Hh].
Qed.

Lemma tight_length (d : string) (Hd : tight d) : (0 < String.length d)%nat.
Proof.
  destruct Hd as [(c & Hh & _) _]. destruct d; [discriminate|simpl; lia].
Qed.

(** X1.  Every entry built from an uploaded text holds a code that is
    not empty, has no white space at either end and no line feed; it is
    valid exactly when the code passes [validateBarcode], carries an
    error exactly when it is invalid, and has no artifact: nothing can be
    downloaded before a pass. *)
Theorem fresh_entries (text : string) :
  Forall (fun b =>
            tight (number b)
            /\ (LF ∉ chars (number b))
            /\ valid b = validateBarcode (number b)
            /\ (valid b = true <-> error b = None)
            /\ dataUrl b = None /\ svgString b = None)
         (processedBarcodes text)
  /\ View.canDownload (processedBarcodes text) = false.
Proof.
  assert (Hlines : Forall (fun line => tight line /\ (LF ∉ chars line))
                          (lines text)).
  { unfold lines. apply Forall_forall. intros line Hin.
    apply list_elem_of_filter in Hin as [Hlen Hin].
    apply list_elem_of_fmap in Hin as (piece & -> & Hpiece).
    split.
    - apply trim_tight. intros Hemp. rewrite Hemp in Hlen. simpl in Hlen. lia.
    - pose proof (split_pieces LF text) as Hall.
      rewrite Forall_forall in Hall. specialize (Hall piece Hpiece).
      destruct (trim_split piece) as (before & after & Hsplit & _).
      intros Hlf. destruct (Hall LF) as [_ Hne]; [|congruence].
      fold (chars piece). unfold chars in Hsplit. unfold chars.
      rewrite Hsplit. apply elem_of_app. right. apply elem_of_app. left.
      exact Hlf. }
  split.
  - unfold processedBarcodes. apply Forall_fmap.
    eapply Forall_impl; [exact Hlines|]. intros line [Ht Hlf]. simpl.
    split; [exact Ht|]. split; [exact Hlf|]. split; [reflexivity|].
    split; [|split; reflexivity].
    destruct (validateBarcode line); split; intros; congruence.
  - unfold View.canDownload, processedBarcodes.
    apply andb_false_iff. right. clear Hlines.
    induction (lines text) as [|line l IH]; [reflexivity|].
    simpl. rewrite andb_false_r. exact IH.
Qed.

(** X2.  The text is read line by line: the entries of two texts joined
    by a line feed are the entries of the first followed by those of the
    second. *)
Theorem upload_line_by_line (s1 s2 : string) :
  lines (s1 +:+ String LF s2) = lines s1 ++ lines s2
  /\ processedBarcodes (s1 +:+ String LF s2)
     = processedBarcodes s1 ++ processedBarcodes s2.
Proof.
  assert (Hl : lines (s1 +:+ String LF s2) = lines s1 ++ lines s2).
  { unfold lines. fold LF. rewrite split_app_sep, fmap_app, filter_app.
    reflexivity. }
  split; [exact Hl|]. unfold processedBarcodes. rewrite Hl. apply fmap_app.
Qed.

(** X3.  A text of white space only (blank lines, line ends) gives no
    entry. *)
Theorem upload_blank (text : string) :
  blank text -> processedBarcodes text = [].
Proof.
  intros Hb. unfold processedBarcodes, lines.
  pose proof (split_pieces LF text) as Hall. fold LF.
  induction Hall as [|piece l Hp _ IH]; [reflexivity|].
  rewrite fmap_cons, filter_cons.
  rewrite trim_blank.
  - rewrite decide_False by (simpl; lia). exact IH.
  - unfold blank in *. apply Forall_forall. intros c Hc.
    rewrite Forall_forall in Hb. apply Hb. apply Hp. exact Hc.
Qed.

(** X4.  White space around the code of a line is ignored: a line made
    of white space, a code without white space at its ends, and white
    space (a carriage return, say) gives one entry, for that code. *)
Theorem upload_padded_line (a d b : string) :
  blank a -> blank b -> tight d ->
  LF ∉ chars a -> LF ∉ chars d -> LF ∉ chars b ->
  processedBarcodes (a +:+ d +:+ b) = [processLine d].
Proof.
  intros Ha Hb Hd Hna Hnd Hnb. unfold processedBarcodes, lines. fold LF.
  rewrite split_no_sep.
  - simpl. rewrite filter_cons, trim_padded by assumption.
    rewrite decide_True by (apply tight_length, Hd). reflexivity.
  - rewrite !chars_app. intros Hin.
    apply elem_of_app in Hin as [Hin|Hin]; [contradiction|].
    apply elem_of_app in Hin as [Hin|Hin]; contradiction.
Qed.

End upload_facts.

(* ================================================================== *)
(** * What a render and a pass leave on the entries *)

Section render_facts.
Import Mapper Renderer Scheduler.
Local Open Scope nat_scope.
Context `{Host}.

(** A render throws and gives the failed entry, or returns and gives the
    entry with one artifact, of the format asked for. *)
Lemma generateSingleBarcode_cases barcode format dims showNum :
  (encoder_throws format barcode dims showNum
   /\ generateSingleBarcode barcode format dims showNum = failed barcode)
  \/ (~ encoder_throws format barcode dims showNum
      /\ exists a, generateSingleBarcode barcode format dims showNum
                   = with_artifact format a barcode).
Proof.
  unfold encoder_throws, generateSingleBarcode, render_png, render_svg.
  destruct format.
  - destruct (JsBarcode_canvas _ _) as [canvas|exn].
    + right. split; [intros [exn Hexn]; discriminate|].
      destruct (_ || _); simpl; eauto.
    + left. split; [eauto|reflexivity].
  - destruct (JsBarcode_svg _ _) as [tempSvg|exn].
    + right. split; [intros [exn Hexn]; discriminate|]. simpl. eauto.
    + left. split; [eauto|reflexivity].
Qed.

(** A render reads the number, the validity and the error of the entry,
    and nothing else of it. *)
Lemma generateSingleBarcode_ext b1 b2 format dims showNum :
  number b1 = number b2 -> valid b1 = valid b2 -> error b1 = error b2 ->
  generateSingleBarcode b1 format dims showNum
  = generateSingleBarcode b2 format dims showNum.
Proof.
  intros Hn Hv He.
  unfold generateSingleBarcode, render_png, render_svg.
  rewrite Hn, Hv, He. reflexivity.
Qed.

Lemma task_cases format dims showNum b :
  (valid b = false /\ task format dims showNum b = b)
  \/ (valid b = true /\ encoder_throws format b dims showNum
      /\ task format dims showNum b = failed b)
  \/ (valid b = true /\ ~ encoder_throws format b dims showNum
      /\ exists a, task format dims showNum b = with_artifact format a b).
Proof.
  unfold task. destruct (valid b) eqn:Hv; simpl; [|left; split; reflexivity].
  right.
  destruct (generateSingleBarcode_cases b format dims showNum)
    as [[Ht Heq]|[Hn [a Heq]]]; [left|right]; eauto.
Qed.

Lemma task_idempotent format dims showNum b :
  task format dims showNum (task format dims showNum b)
  = task format dims showNum b.
Proof.
  destruct (task_cases format dims showNum b)
    as [[Hv Heq]|[(Hv & _ & Heq)|(Hv & _ & a & Heq)]].
  - rewrite Heq. exact Heq.
  - rewrite Heq. reflexivity.
  - rewrite Heq. unfold task in *. rewrite Hv in Heq. simpl in Heq.
    assert (Hv' : valid (with_artifact format a b) = true)
      by (destruct format; exact Hv).
    rewrite Hv'. simpl. rewrite <- Heq at 2.
    apply generateSingleBarcode_ext; destruct format; reflexivity.
Qed.

End render_facts.

Section pass_results.
Import Mapper Renderer Scheduler Exporter.
Local Open Scope nat_scope.
Context `{Host}.
Variables (barcodes : list Entry) (format : Format)
          (dims : Dimensions) (showNum : bool).

Local Abbreviation task := (Scheduler.task format dims showNum).

Lemma with_artifact_artifacts f a b :
  artifact f (with_artifact f a b) = Some a
  /\ artifact (other f) (with_artifact f a b) = None.
Proof. destruct f; split; reflexivity. Qed.

(** X5.  After a pass every entry is one of three: an entry that was
    invalid, returned as it was; an entry whose render threw, returned as
    the failed entry; or an entry whose render returned, which keeps its
    number, validity and error and gets the artifact.  So an entry valid
    after the pass has an artifact of the format of the pass and none of
    the other format, and the pass never adds to the valid entries. *)
Theorem pass_outcome_per_entry :
  exists pass,
    generateBarcodes barcodes format dims showNum = Some pass
    /\ (forall k b, barcodes !! k = Some b ->
          exists b', updatedBarcodes pass !! k = Some b'
            /\ ((valid b = false /\ b' = b)
                \/ (valid b = true /\ encoder_throws format b dims showNum
                    /\ b' = failed b)
                \/ (valid b = true /\ ~ encoder_throws format b dims showNum
                    /\ exists a, b' = with_artifact format a b)))
    /\ (forall b', b' ∈ updatedBarcodes pass -> valid b' = true ->
          is_Some (artifact format b') /\ artifact (other format) b' = None)
    /\ validCount (updatedBarcodes pass) <= validCount barcodes.
Proof.
  eexists. split; [apply generateBarcodes_run|]. cbn [updatedBarcodes].
  split; [|split].
  - intros k b Hk. exists (task b). rewrite list_lookup_fmap, Hk.
    split; [reflexivity|]. apply task_cases.
  - intros b' Hin Hv. apply list_elem_of_fmap in Hin as (b & -> & _).
    destruct (task_cases format dims showNum b)
      as [[Hvb Heq]|[(_ & _ & Heq)|(_ & _ & a & Heq)]].
    + rewrite Heq in Hv. congruence.
    + rewrite Heq in Hv. discriminate.
    + rewrite Heq. destruct (with_artifact_artifacts format a b) as [-> ->].
      split; [eexists|]; reflexivity.
  - apply validCount_task_le.
Qed.

(** X6.  Running the pass again on its own result, with the same
    settings, changes nothing; and whatever the settings of a later
    pass, an entry whose render failed stays the failed entry: a failed
    render is never tried again. *)
Theorem pass_idempotent_failures_permanent :
  exists pass,
    generateBarcodes barcodes format dims showNum = Some pass
    /\ (exists again,
          generateBarcodes (updatedBarcodes pass) format dims showNum
          = Some again
          /\ updatedBarcodes again = updatedBarcodes pass)
    /\ (forall format' dims' showNum',
          exists later,
            generateBarcodes (updatedBarcodes pass) format' dims' showNum'
            = Some later
            /\ forall k b, barcodes !! k = Some b -> valid b = true ->
                 encoder_throws format b dims showNum ->
                 updatedBarcodes later !! k = Some (failed b)).
Proof.
  eexists. split; [apply generateBarcodes_run|]. cbn [updatedBarcodes].
  split.
  - eexists. split; [apply generateBarcodes_run|]. cbn [updatedBarcodes].
    rewrite <- list_fmap_compose. apply list_fmap_ext.
    intros i b _. apply task_idempotent.
  - intros format' dims' showNum'.
    eexists. split; [apply generateBarcodes_run|]. cbn [updatedBarcodes].
    intros k b Hk Hv Hthrow.
    rewrite !list_lookup_fmap, Hk. simpl. f_equal.
    unfold Scheduler.task at 2. rewrite Hv. simpl.
    rewrite (generateSingleBarcode_threw _ _ _ _ Hthrow).
    reflexivity.
Qed.

End pass_results.

(* ================================================================== *)
(** * The archive, the counters and the download button *)

Section archive_facts.
Import Mapper Renderer Scheduler Exporter.
Local Open Scope nat_scope.

Lemma addBarcode_exportable f (zip : gmap string ZipData) b :
  addBarcode f zip b
  = if decide (exportable f b)
    then <[fileName b (extension f) := stored f b]> zip else zip.
Proof.
  unfold addBarcode, exportable, zip_file.
  destruct (valid b);
    [|rewrite decide_False by (intros [? _]; discriminate); reflexivity].
  destruct f; simpl.
  - destruct (JsString.truthy (dataUrl b)); case_decide as Hr;
      try reflexivity; destruct Hr; try split; congruence.
  - destruct (JsString.truthy (svgString b)); case_decide as Hr;
      try reflexivity; destruct Hr; try split; congruence.
Qed.

Lemma archive_lookup f (l : list Entry) :
  forall (zip : gmap string ZipData) name data,
  foldl (addBarcode f) zip l !! name = Some data ->
  zip !! name = Some data
  \/ exists b, b ∈ l /\ exportable f b
               /\ name = fileName b (extension f) /\ data = stored f b.
Proof.
  induction l as [|b l IH]; intros zip name data Hlook; simpl in *.
  - left. exact Hlook.
  - destruct (IH _ _ _ Hlook) as [Hz|(b' & Hin & Hr & Hn & Hd)].
    + rewrite addBarcode_exportable in Hz.
      case_decide as Hr; [|left; exact Hz].
      apply lookup_insert_Some in Hz as [[<- <-]|[_ Hz]];
        [right|left; exact Hz].
      exists b. split; [left|]. split; [exact Hr|]. split; reflexivity.
    + right. exists b'. split; [right; exact Hin|].
      split; [exact Hr|]. split; assumption.
Qed.

Lemma archive_untouched f (l : list Entry) :
  forall (zip : gmap string ZipData) name,
  (forall b, b ∈ l -> exportable f b -> fileName b (extension f) <> name) ->
  foldl (addBarcode f) zip l !! name = zip !! name.
Proof.
  induction l as [|b l IH]; intros zip name Hno; simpl; [reflexivity|].
  rewrite IH by (intros b' Hin; apply Hno; right; exact Hin).
  rewrite addBarcode_exportable. case_decide as Hr; [|reflexivity].
  apply lookup_insert_ne. apply Hno; [left|exact Hr].
Qed.

Lemma archive_size f (l : list Entry) : forall zip : gmap string ZipData,
  size (foldl (addBarcode f) zip l) <= size zip + validCount l.
Proof.
  induction l as [|b l IH]; intros zip; simpl.
  - unfold validCount. simpl. lia.
  - etransitivity; [apply IH|]. rewrite validCount_cons.
    rewrite addBarcode_exportable. case_decide as Hr; [|lia].
    destruct Hr as [-> _]. rewrite map_size_insert.
    destruct (zip !! _); simpl; lia.
Qed.

Lemma validCount_elem (l : list Entry) b :
  b ∈ l -> valid b = true -> 0 < validCount l.
Proof.
  induction 1 as [b l|b a l _ IH]; intros Hv; rewrite validCount_cons.
  - rewrite Hv. lia.
  - specialize (IH Hv). lia.
Qed.

(** X7.  The download button promises [validCount] files; the archive
    never holds more, and whenever it holds a file the button is there
    ([canDownload] is true). *)
Theorem archive_within_valid_count (barcodes : list Entry) (f : Format) :
  size (downloadZip barcodes f).1 <= validCount barcodes
  /\ ((downloadZip barcodes f).1 <> ∅ -> View.canDownload barcodes = true).
Proof.
  split.
  - unfold downloadZip. simpl.
    etransitivity; [apply archive_size|]. rewrite map_size_empty. lia.
  - intros Hne. apply map_choose in Hne as (name & data & Hlook).
    unfold downloadZip in Hlook. simpl in Hlook.
    apply archive_lookup in Hlook as [Hemp|(b & Hin & [Hv Ht] & _)].
    { rewrite lookup_empty in Hemp. discriminate. }
    unfold View.canDownload. apply andb_true_iff. split.
    + apply bool_decide_eq_true. eapply validCount_elem; eassumption.
    + apply existsb_exists. exists b. split; [apply list_elem_of_In, Hin|].
      rewrite Hv. simpl. destruct f; simpl in Ht; rewrite Ht;
        [reflexivity|apply orb_true_r].
Qed.

(** X8.  The two counters shown above the list add up to the number of
    entries. *)
Theorem counters_add_up (barcodes : list Entry) :
  validCount barcodes + View.invalidCount barcodes = length barcodes.
Proof.
  unfold validCount, View.invalidCount.
  induction barcodes as [|b l IH]; [reflexivity|].
  rewrite !filter_cons. simpl.
  destruct (valid b); simpl; repeat case_decide; try congruence; simpl; lia.
Qed.

(** X9.  Two entries with the same code share a file name, and the later
    one wins: the file of an exportable entry holds that entry's data
    when no later exportable entry has the same code. *)
Theorem archive_later_entry_wins (before : list Entry) (b : Entry)
        (after : list Entry) (f : Format) :
  exportable f b ->
  (forall b', b' ∈ after -> exportable f b' -> number b' <> number b) ->
  (downloadZip (before ++ b :: after) f).1
    !! (number b +:+ "." +:+ extension f)
  = Some (stored f b).
Proof.
  intros Hb Hafter. unfold downloadZip. simpl.
  rewrite foldl_app. simpl. rewrite archive_untouched.
  - rewrite addBarcode_exportable, decide_True by exact Hb.
    apply lookup_insert_eq.
  - intros b' Hin Hr Heq. apply (Hafter b' Hin Hr).
    unfold fileName in Heq. eapply string_app_cancel_r. exact Heq.
Qed.

Lemma split_second (h p : string) :
  ","%char ∉ chars h -> ","%char ∉ chars p ->
  JsString.split ","%char (h +:+ String ","%char p) !! 1 = Some p.
Proof.
  intros Hh Hp. rewrite split_app_sep, !split_no_sep by assumption.
  reflexivity.
Qed.

(** X10.  What is stored for a raster entry is the base64 payload of its
    data URL: for a data URL made of a header, a comma and a payload
    (neither holding a comma), the archive of that one valid entry has
    the single file [<code>.png], holding the payload to be decoded. *)
Theorem archive_stores_payload (b : Entry) (header payload : string) :
  valid b = true ->
  dataUrl b = Some (header +:+ String ","%char payload) ->
  ","%char ∉ chars header -> ","%char ∉ chars payload ->
  (downloadZip [b] png).1
  = {[ number b +:+ ".png" := Base64 (Some payload) ]}.
Proof.
  intros Hv Hd Hh Hp. unfold downloadZip. simpl.
  rewrite addBarcode_exportable, decide_True.
  - unfold stored. rewrite Hd. simpl. rewrite split_second by assumption.
    apply insert_empty.
  - split; [exact Hv|]. simpl. rewrite Hd. destruct header; reflexivity.
Qed.

End archive_facts.

Section pass_then_export.
Import Mapper Renderer Scheduler Exporter.
Local Open Scope nat_scope.
Context `{Host}.
Variables (barcodes : list Entry) (format : Format)
          (dims : Dimensions) (showNum : bool).

Local Abbreviation task := (Scheduler.task format dims showNum).

Lemma filter_ext_elem {A} (P Q : A -> Prop) `{!forall x, Decision (P x)}
      `{!forall x, Decision (Q x)} (l : list A) :
  (forall x, x ∈ l -> P x <-> Q x) -> filter P l = filter Q l.
Proof.
  induction l as [|x l IH]; intros Hext; [reflexivity|].
  rewrite !filter_cons, IH by (intros y Hy; apply Hext; right; exact Hy).
  pose proof (Hext x (list_elem_of_here x l)) as Hx.
  repeat case_decide; tauto.
Qed.

Lemma archive_names_exportable f (l : list Entry) :
  forall zip : gmap string ZipData,
  dom (foldl (addBarcode f) zip l)
  = dom zip ∪
    list_to_set ((fun b => fileName b (extension f))
                   <$> filter (exportable f) l).
Proof.
  induction l as [|b l IH]; intros zip; simpl.
  - set_solver.
  - rewrite IH, addBarcode_exportable, filter_cons. case_decide.
    + rewrite dom_insert_L, fmap_cons. set_solver.
    + reflexivity.
Qed.

(** X11.  After a pass in one format, an export in the other format
    gives an empty archive: every render clears the artifact of the other
    format. *)
Theorem export_other_format_is_empty :
  exists pass,
    generateBarcodes barcodes format dims showNum = Some pass
    /\ (downloadZip (updatedBarcodes pass) (other format)).1 = ∅.
Proof.
  eexists. split; [apply generateBarcodes_run|]. cbn [updatedBarcodes].
  apply map_empty. intros name.
  destruct (_ !! name) as [data|] eqn:Hlook; [|reflexivity].
  unfold downloadZip in Hlook. simpl in Hlook.
  apply archive_lookup in Hlook as [Hemp|(b' & Hin & [Hv Ht] & _)].
  { rewrite lookup_empty in Hemp. discriminate. }
  apply list_elem_of_fmap in Hin as (b & -> & _).
  destruct (task_cases format dims showNum b)
    as [[Hvb Heq]|[(_ & _ & Heq)|(_ & _ & a & Heq)]].
  - rewrite Heq in Hv. congruence.
  - rewrite Heq in Hv. discriminate.
  - rewrite Heq in Ht.
    destruct (with_artifact_artifacts format a b) as [_ Hnone].
    rewrite Hnone in Ht. discriminate.
Qed.

Hypothesis toDataURL_nonempty : forall c, toDataURL c <> "".
Hypothesis outerHTML_nonempty : forall n, outerHTML n <> "".

Lemma task_exportable b :
  valid (task b) = true -> exportable format (task b).
Proof.
  intros Hv. split; [exact Hv|]. revert Hv. unfold Scheduler.task.
  destruct (valid b) eqn:Hvb; simpl; [|congruence].
  unfold generateSingleBarcode, render_png, render_svg.
  destruct format.
  - destruct (JsBarcode_canvas _ _) as [canvas|exn]; [|discriminate].
    destruct (_ || _); simpl; intros _.
    + destruct (toDataURL _) eqn:Hu; [|reflexivity].
      destruct (toDataURL_nonempty _ Hu).
    + destruct (toDataURL _) eqn:Hu; [|reflexivity].
      destruct (toDataURL_nonempty _ Hu).
  - destruct (JsBarcode_svg _ _) as [tempSvg|exn]; [|discriminate].
    simpl; intros _.
    destruct (outerHTML _) eqn:Hu; [|reflexivity].
    destruct (outerHTML_nonempty _ Hu).
Qed.

(** X12.  A pass followed by an export in the same format: the files of
    the archive are exactly the names [<code>.<ext>] of the entries still
    valid after the pass, none is missing and none is stale. *)
Theorem export_after_pass :
  exists pass,
    generateBarcodes barcodes format dims showNum = Some pass
    /\ dom (downloadZip (updatedBarcodes pass) format).1
       = list_to_set
           ((fun b => number b +:+ "." +:+ extension format)
              <$> filter (fun b => valid b = true) (updatedBarcodes pass)).
Proof.
  eexists. split; [apply generateBarcodes_run|]. cbn [updatedBarcodes].
  unfold downloadZip. simpl. rewrite archive_names_exportable, dom_empty_L.
  rewrite (filter_ext_elem (exportable format) (fun b => valid b = true)).
  - unfold fileName. set_solver.
  - intros b' Hin. apply list_elem_of_fmap in Hin as (b & -> & _).
    split; [intros [Hv _]; exact Hv|apply task_exportable].
Qed.

End pass_then_export.

(* ================================================================== *)
(** * The exporter: one file per rendered code *)

Section archive_claim.
Import Mapper Renderer Scheduler Exporter.
Local Open Scope nat_scope.

Lemma exportable_rendered_nonempty f b :
  exportable f b <-> rendered_nonempty f b.
Proof.
  unfold exportable, rendered_nonempty, rendered.
  destruct (artifact f b) as [[|c a]|]; simpl; split.
  - intros [_ Ht]. discriminate.
  - intros [_ Hne]. congruence.
  - intros [Hv _]. split; [split; [exact Hv|eauto]|discriminate].
  - intros [[Hv _] _]. split; [exact Hv|reflexivity].
  - intros [_ Ht]. discriminate.
  - intros [[_ [a Ha]] _]. discriminate.
Qed.

Lemma filter_exportable f (l : list Entry) :
  filter (exportable f) l = filter (rendered_nonempty f) l.
Proof. apply list_filter_iff, exportable_rendered_nonempty. Qed.

Lemma fileName_inj b1 b2 ext :
  fileName b1 ext = fileName b2 ext -> number b1 = number b2.
Proof. unfold fileName. apply string_app_cancel_r. Qed.

Lemma remove_dups_fmap_length {A B} `{EqDecision A, EqDecision B}
      (g : A -> B) (l : list A) :
  (forall x y, g x = g y -> x = y) ->
  length (remove_dups (g <$> l)) = length (remove_dups l).
Proof.
  intros Hinj. induction l as [|x l IH]; [reflexivity|].
  rewrite fmap_cons. cbn [remove_dups].
  destruct (decide_rel elem_of x l) as [Hin|Hout],
           (decide_rel elem_of (g x) (g <$> l)) as [Hin'|Hout']; simpl.
  - exact IH.
  - destruct Hout'. apply list_elem_of_fmap. eauto.
  - destruct Hout. apply list_elem_of_fmap in Hin' as (y & Heq & Hy).
    apply Hinj in Heq as ->. exact Hy.
  - now rewrite IH.
Qed.

Lemma remove_dups_NoDup {A} `{EqDecision A} (l : list A) :
  NoDup l -> remove_dups l = l.
Proof.
  induction 1 as [|x l Hx _ IH]; [reflexivity|].
  cbn [remove_dups]. destruct (decide_rel elem_of x l); [contradiction|].
  now rewrite IH.
Qed.

Lemma size_list_to_set_remove_dups (l : list string) :
  size (list_to_set (C := gset string) l) = length (remove_dups l).
Proof.
  rewrite <- (size_list_to_set (C := gset string) (remove_dups l))
    by apply NoDup_remove_dups.
  f_equal. apply set_eq. intros x.
  now rewrite !elem_of_list_to_set, elem_of_remove_dups.
Qed.

(** Every file comes from the last exportable entry that has its code. *)
Lemma archive_last_entry f (l : list Entry) : forall name data,
  foldl (addBarcode f) ∅ l !! name = Some data ->
  exists before b after,
    l = before ++ b :: after /\ exportable f b
    /\ (forall b', b' ∈ after -> exportable f b' -> number b' <> number b)
    /\ name = fileName b (extension f) /\ data = stored f b.
Proof.
  induction l as [|x l IH] using rev_ind; intros name data Hlook.
  - simpl in Hlook. rewrite lookup_empty in Hlook. discriminate.
  - rewrite foldl_app in Hlook. simpl in Hlook.
    rewrite addBarcode_exportable in Hlook.
    assert (Hold : foldl (addBarcode f) ∅ l !! name = Some data ->
                   (exportable f x -> fileName x (extension f) <> name) ->
                   exists before b after,
                     l ++ [x] = before ++ b :: after /\ exportable f b
                     /\ (forall b', b' ∈ after -> exportable f b' ->
                                    number b' <> number b)
                     /\ name = fileName b (extension f)
                     /\ data = stored f b).
    { intros Hl Hx.
      destruct (IH _ _ Hl) as (before & b & after & -> & Hb & Hafter & Hn & Hd).
      exists before, b, (after ++ [x]).
      split; [now rewrite <- app_assoc|]. split; [exact Hb|].
      split; [|split; assumption].
      intros b' Hin Hb' Heq. apply elem_of_app in Hin as [Hin|Hin].
      - exact (Hafter b' Hin Hb' Heq).
      - apply list_elem_of_singleton in Hin as ->.
        apply (Hx Hb'). rewrite Hn. unfold fileName. now rewrite Heq. }
    case_decide as Hx.
    + apply lookup_insert_Some in Hlook as [[<- <-]|[Hne Hlook]].
      * exists l, x, []. split; [reflexivity|]. split; [exact Hx|].
        split; [|split; reflexivity].
        intros b' Hin. inversion Hin.
      * apply Hold; [exact Hlook|]. intros _. exact Hne.
    + apply Hold; [exact Hlook|]. intros Hx'. contradiction.
Qed.

(** C8, amended.  The files of the archive are the names [<code>.<ext>]
    of the entries that are valid and have an artifact of the format that
    is neither null nor the empty string: one file for each distinct code
    among them.  The file of a code holds the data of the last such entry
    with that code: the part of its data URL after the first comma (the
    payload, for a data URL made of a header, a comma and a payload), to
    be decoded from base64 to binary, or its markup as text.  Nothing else
    is in the archive: an invalid entry and an entry without such an
    artifact add no file.  When the codes of those entries are pairwise
    distinct there is one file per entry.  The archive is saved as
    [barcodes.<ext>.zip]. *)
Theorem archive_one_file_per_rendered_code (barcodes : list Entry)
        (f : Format) :
  let zip := (downloadZip barcodes f).1 in
  let ext := match f with png => "png" | svg => "svg" end in
  let exported := filter (rendered_nonempty f) barcodes in
  dom zip = list_to_set ((fun b => number b +:+ "." +:+ ext) <$> exported)
  /\ size zip = length (remove_dups (number <$> exported))
  /\ (forall before b after,
        barcodes = before ++ b :: after ->
        rendered_nonempty f b ->
        (forall b', b' ∈ after -> rendered_nonempty f b' ->
                    number b' <> number b) ->
        zip !! (number b +:+ "." +:+ ext) = Some (stored f b))
  /\ (forall name data,
        zip !! name = Some data ->
        exists before b after,
          barcodes = before ++ b :: after
          /\ rendered_nonempty f b
          /\ (forall b', b' ∈ after -> rendered_nonempty f b' ->
                         number b' <> number b)
          /\ name = number b +:+ "." +:+ ext
          /\ data = stored f b)
  /\ (NoDup (number <$> exported) -> size zip = length exported)
  /\ (forall b header payload,
        dataUrl b = Some (header +:+ String ","%char payload) ->
        ","%char ∉ chars header -> ","%char ∉ chars payload ->
        stored png b = Base64 (Some payload))
  /\ (forall b markup, svgString b = Some markup ->
                       stored svg b = PlainText markup)
  /\ (downloadZip barcodes f).2 = "barcodes." +:+ ext +:+ ".zip".
Proof.
  intros zip ext exported.
  assert (Hext : ext = extension f) by (destruct f; reflexivity).
  assert (Hdom : dom zip
                 = list_to_set ((fun b => number b +:+ "." +:+ ext)
                                  <$> exported)).
  { unfold zip, exported, downloadZip. simpl.
    rewrite archive_names_exportable, dom_empty_L, filter_exportable, Hext.
    unfold fileName. set_solver. }
  assert (Hsize : size zip = length (remove_dups (number <$> exported))).
  { rewrite <- size_dom, Hdom, size_list_to_set_remove_dups.
    change (fun b => number b +:+ "." +:+ ext)
      with ((fun n => n +:+ "." +:+ ext) ∘ number).
    rewrite list_fmap_compose. apply remove_dups_fmap_length.
    intros n1 n2. apply string_app_cancel_r. }
  split; [exact Hdom|]. split; [exact Hsize|].
  split; [|split; [|split; [|split; [|split]]]].
  - intros before b after -> Hb Hafter. unfold zip, downloadZip. simpl.
    rewrite foldl_app. simpl. rewrite archive_untouched.
    + rewrite addBarcode_exportable, decide_True
        by (apply exportable_rendered_nonempty, Hb).
      rewrite Hext. apply lookup_insert_eq.
    + intros b' Hin Hb' Heq. rewrite Hext in Heq.
      apply (Hafter b' Hin); [apply exportable_rendered_nonempty, Hb'|].
      apply (fileName_inj b' b (extension f)). exact Heq.
  - intros name data Hlook. unfold zip, downloadZip in Hlook. simpl in Hlook.
    destruct (archive_last_entry _ _ _ _ Hlook)
      as (before & b & after & Hl & Hb & Hafter & Hn & Hd).
    exists before, b, after. split; [exact Hl|].
    split; [apply exportable_rendered_nonempty, Hb|].
    split; [|split; [rewrite Hext; exact Hn|exact Hd]].
    intros b' Hin Hb'. apply Hafter; [exact Hin|].
    apply exportable_rendered_nonempty, Hb'.
  - intros Hnd. rewrite Hsize.
    rewrite (remove_dups_NoDup _ Hnd). apply length_fmap.
  - intros b header payload Hd Hh Hp. unfold stored. rewrite Hd. simpl.
    now rewrite split_second.
  - intros b markup Hm. unfold stored. now rewrite Hm.
  - rewrite Hext. reflexivity.
Qed.

End archive_claim.

Section archive_examples.
Import Mapper Renderer Scheduler Exporter Samples Fixtures.
Local Open Scope nat_scope.

(** C8, as stated, fails.  A file that holds the same code on two lines
    gives, after a pass, two valid entries with an artifact, and the
    archive has one file, not two.  When two such entries differ in
    their artifact, the data of the first is not in the archive. *)
Lemma archive_merges_duplicate_codes :
  (exists pass,
     generateBarcodes (H := accepting)
       (Validator.processedBarcodes same_code_twice) png default_dims true
     = Some pass
     /\ updatedBarcodes pass = [good_rendered; good_rendered]
     /\ Forall (rendered png) (updatedBarcodes pass)
     /\ length (filter (rendered png) (updatedBarcodes pass)) = 2
     /\ size (downloadZip (updatedBarcodes pass) png).1 = 1)
  /\ rendered png rendered_small
  /\ rendered png rendered_large
  /\ stored png rendered_small = Base64 (Some "AAAA")
  /\ (downloadZip [rendered_small; rendered_large] png).1
     = {[ "012345678905.png" := Base64 (Some "BBBB") ]}.
Proof.
  split.
  - eexists. split; [vm_compute; reflexivity|].
    split; [reflexivity|].
    split; [repeat constructor; eexists; reflexivity|].
    split; [reflexivity|]. vm_compute. reflexivity.
  - split; [split; [reflexivity|eexists; reflexivity]|].
    split; [split; [reflexivity|eexists; reflexivity]|].
    split; [reflexivity|]. vm_compute. reflexivity.
Qed.

Lemma archive_one_file_per_rendered_code_witness :
  rendered_nonempty png good_rendered
  /\ (downloadZip [good_rendered; short; good] png).1 !! "012345678905.png"
     = Some (Base64 (Some "260x113"))
  /\ size (downloadZip [good_rendered; short; good] png).1 = 1.
Proof.
  assert (Hr : rendered_nonempty png good_rendered).
  { split; [split; [reflexivity|eexists; reflexivity]|discriminate]. }
  split; [exact Hr|].
  destruct (archive_one_file_per_rendered_code [good_rendered; short; good]
              png)
    as (_ & Hsize & Hfile & _).
  split.
  - apply (Hfile [] good_rendered [short; good] eq_refl Hr).
    intros b' Hin [[Hv [a Ha]] _].
    apply list_elem_of_In in Hin. simpl in Hin.
    destruct Hin as [<-|[<-|[]]]; discriminate.
  - rewrite Hsize. vm_compute. reflexivity.
Defined.

End archive_examples.

(* ================================================================== *)
(** * The session: what holds in every reachable state *)

Section session_invariants.
Import Mapper Renderer Scheduler Session.
Local Open Scope nat_scope.
Context `{Host}.

Lemma processLine_well_formed line : well_formed (Validator.processLine line).
Proof.
  unfold well_formed, Validator.processLine. simpl.
  split; [|split; [intros Hv; exact Hv|left; reflexivity]].
  destruct (Validator.validateBarcode line); split; intros; congruence.
Qed.

Lemma task_well_formed format dims showNum b :
  well_formed b -> well_formed (task format dims showNum b).
Proof.
  intros (Herr & Hnum & Hone).
  destruct (task_cases format dims showNum b)
    as [[Hv ->]|[(Hv & _ & ->)|(Hv & _ & a & ->)]].
  - split; [exact Herr|]. split; assumption.
  - split; [split; intros; discriminate|].
    split; [intros; discriminate|left; reflexivity].
  - destruct format; simpl;
      (split; [exact Herr|]; split; [exact Hnum|]);
      [right|left]; reflexivity.
Qed.

(** X13.  In every reachable state, every entry shows an error exactly
    when it is invalid, holds a twelve-digit code when it is valid, and
    holds at most one artifact. *)
Theorem reachable_entries_well_formed (s : State) :
  reachable s -> Forall well_formed (barcodes s).
Proof.
  intros Hs.
  apply (reachable_entries well_formed processLine_well_formed
           task_well_formed s Hs).
Qed.

Lemma published_pass_within_total barcodes format dims showNum pass :
  generateBarcodes barcodes format dims showNum = Some pass ->
  Forall within_total (published (trace pass)).
Proof.
  rewrite generateBarcodes_run. intros [= <-]. cbn [trace].
  unfold published. simpl. constructor; [unfold within_total; simpl; lia|].
  rewrite omap_app. simpl.
  fold (published (concat (chunk_events barcodes format dims showNum
                             <$> seq 0 (chunks (length barcodes))))).
  rewrite published_chunks. apply Forall_app. split.
  - apply Forall_fmap, Forall_forall. intros c _.
    unfold within_total, chunk_progress. simpl.
    pose proof (validCount_processed_le barcodes format dims showNum
                  ((c + 1) * BATCH_SIZE)). lia.
  - repeat constructor.
Qed.


Lemma drain_pending t : forall s, pending s = t -> pending (drain t s) = [].
Proof.
  induction t as [|e rest IH]; intros s Hp; simpl; [exact Hp|].
  apply IH. destruct e; reflexivity.
Qed.

Lemma reachable_idle_or_winding_down (s : State) :
  reachable s -> idle s \/ winding_down s.
Proof.
  induction 1 as [|s s' Hreach IH Hstep].
  - left. repeat split.
  - destruct Hstep as [s s' Hset|text s|s dims pass _ _ _ _ Hgen|e rest s Hp].
    + destruct Hset; exact IH.
    + destruct IH as [(Hg & _ & Hp)|Hw].
      * left. repeat split; assumption.
      * right. exact Hw.
    + right. left. rewrite generateBarcodes_run in Hgen.
      injection Hgen as <-. simpl.
      eexists (_ :: _ :: _). reflexivity.
    + destruct IH as [(_ & _ & Hnil)|[(r & Hr)|(Hone & Hg)]].
      * congruence.
      * right. rewrite Hp in Hr. destruct r as [|e' r'].
        -- injection Hr as -> ->. right. split; reflexivity.
        -- injection Hr as -> ->. left. exists r'.
           destruct e'; reflexivity.
      * left. rewrite Hp in Hone. injection Hone as -> ->.
        repeat split. exact Hg.
Qed.

(** X15.  A pass always runs to its end: in every reachable state,
    once the setter calls still to come have taken effect the component
    is idle again, with [isGenerating] false and the progress reset to
    [{0, 0}]; and a state with no call to come is idle already. *)
Theorem pass_ends_idle (s : State) :
  reachable s ->
  idle (drain (pending s) s) /\ (pending s = [] -> idle s).
Proof.
  intros Hs.
  assert (Hnil : forall s', reachable s' -> pending s' = [] -> idle s').
  { intros s' Hs' Hp.
    destruct (reachable_idle_or_winding_down s' Hs')
      as [Hi|[(r & Hr)|(Hone & _)]]; [exact Hi| |congruence].
    rewrite Hp in Hr. destruct r; discriminate. }
  split; [|apply Hnil, Hs].
  apply Hnil.
  - apply reachable_drain; [exact Hs|reflexivity].
  - apply drain_pending. reflexivity.
Qed.

Lemma drain_barcodes t : forall s,
  barcodes (drain t s) = default (barcodes s) (last (snapshots t)).
Proof.
  induction t as [|e rest IH]; intros s; simpl; [reflexivity|].
  rewrite IH.
  destruct e as [g|p|l0]; try reflexivity.
  change (snapshots (SetBarcodes l0 :: rest)) with (l0 :: snapshots rest).
  cbn [apply barcodes].
  destruct (snapshots rest) as [|x xs]; [reflexivity|].
  rewrite last_cons_cons.
  destruct (last (x :: xs)) eqn:Hl; [reflexivity|].
  apply last_None in Hl. discriminate.
Qed.

(** X23.  A file uploaded while a pass still has an entry list to
    publish is lost: once the pass has made its remaining setter calls,
    the entry list is the one the pass publishes last, whatever was
    uploaded in between. *)
Theorem upload_during_pass_is_overwritten (text : string) (s : State) :
  snapshots (pending s) <> [] ->
  barcodes (drain (pending s) (handleFileUpload text s))
  = barcodes (drain (pending s) s)
  /\ last (snapshots (pending s)) = Some (barcodes (drain (pending s) s)).
Proof.
  intros Hne. rewrite !drain_barcodes.
  destruct (last (snapshots (pending s))) as [l|] eqn:Hl.
  - split; reflexivity.
  - apply last_None in Hl. contradiction.
Qed.

End session_invariants.

(* ================================================================== *)
(** * Sizes: the encoder parameters and the size handlers *)

Section size_facts.
Import Mapper Renderer Session.
Local Open Scope Z_scope.

(** X16.  A larger target never gives smaller encoder parameters: the
    module width grows with the target width, the font size and the bar
    height grow with the target height. *)
Theorem barcodeOptions_monotone (w1 w2 h1 h2 : Z) (showNum : bool) :
  w1 <= w2 -> h1 <= h2 ->
  width (barcodeOptions w1 h1 showNum) <= width (barcodeOptions w2 h2 showNum)
  /\ fontSize (barcodeOptions w1 h1 showNum)
     <= fontSize (barcodeOptions w2 h2 showNum)
  /\ height (barcodeOptions w1 h1 showNum)
     <= height (barcodeOptions w2 h2 showNum).
Proof.
  intros Hw Hh. simpl.
  assert (w1 / 115 <= w2 / 115) by (apply Z.div_le_mono; lia).
  assert (h1 / 10 <= h2 / 10) by (apply Z.div_le_mono; lia).
  assert (h2 / 10 - h1 / 10 <= h2 - h1).
  { pose proof (Z.mul_div_le h1 10). pose proof (Z.mul_succ_div_gt h1 10).
    pose proof (Z.mul_div_le h2 10). pose proof (Z.mul_succ_div_gt h2 10).
    destruct (Z.eq_dec h1 h2) as [->|]; lia. }
  change (95 + 2 * 10) with 115. destruct showNum; lia.
Qed.

(** X17.  The module width is at least one pixel, and for a target of
    115 pixels or more the 115 modules the computation counts fit the
    target width, with less than one module per module position left
    over. *)
Theorem module_width_fits (widthPx heightPx : Z) (showNum : bool) :
  let barWidth := width (barcodeOptions widthPx heightPx showNum) in
  1 <= barWidth
  /\ (115 <= widthPx ->
      115 * barWidth <= widthPx < 115 * (barWidth + 1)).
Proof.
  simpl. change (95 + 2 * 10) with 115. split; [lia|]. intros Hw.
  pose proof (Z.mul_div_le widthPx 115).
  pose proof (Z.mul_succ_div_gt widthPx 115).
  assert (1 <= widthPx / 115) by (apply Z.div_le_lower_bound; lia).
  lia.
Qed.

Context `{Host}.

Lemma float_or_number (a b : float) :
  PrimFloat.is_nan b = false -> PrimFloat.is_zero b = false ->
  PrimFloat.is_nan (float_or a b) = false
  /\ PrimFloat.is_zero (float_or a b) = false.
Proof.
  intros Hn Hz. unfold float_or.
  destruct (PrimFloat.is_nan a) eqn:Ha; simpl; [split; assumption|].
  destruct (PrimFloat.is_zero a) eqn:Hb; simpl; split; assumption.
Qed.

(** X18.  Whatever is typed, the size being edited is stored as a number
    that is neither NaN nor zero. *)
Theorem edited_size_is_a_nonzero_number (value : string) (s : State) :
  (PrimFloat.is_nan (widthCm (handleWidthChange value s)) = false
   /\ PrimFloat.is_zero (widthCm (handleWidthChange value s)) = false)
  /\ (PrimFloat.is_nan (heightCm (handleHeightChange value s)) = false
      /\ PrimFloat.is_zero (heightCm (handleHeightChange value s)) = false).
Proof.
  split; simpl; apply float_or_number; reflexivity.
Qed.

(** X19.  With the ratio locked, an input that does not parse to a
    number, or parses to zero, brings back the default size: the target
    is 260 by 113 pixels again, whichever of the two fields was edited. *)
Theorem malformed_size_restores_default (value : string) (s : State) :
  (PrimFloat.is_nan (parseFloat value) || PrimFloat.is_zero (parseFloat value))
  = true ->
  lockRatio s = true ->
  (exists dims,
      dimensions (widthCm (handleWidthChange value s))
                 (heightCm (handleWidthChange value s)) = Some dims
      /\ widthPx dims = 260 /\ heightPx dims = 113)
  /\ (exists dims,
         dimensions (widthCm (handleHeightChange value s))
                    (heightCm (handleHeightChange value s)) = Some dims
         /\ widthPx dims = 260 /\ heightPx dims = 113).
Proof.
  intros Hbad Hlock. unfold handleWidthChange, handleHeightChange, float_or.
  rewrite Hbad, Hlock. cbn [widthCm heightCm].
  split; eexists; (split; [vm_compute; reflexivity|split; reflexivity]).
Qed.

End size_facts.

(* ================================================================== *)
(** * More on the renderer, the chunks and the preview *)

Section raster_size.
Import Mapper Renderer.
Local Open Scope Z_scope.
Context `{Host}.


End raster_size.

Section chunk_snapshots.
Import Mapper Renderer Scheduler.
Local Open Scope nat_scope.
Context `{Host}.
Variables (barcodes : list Entry) (format : Format)
          (dims : Dimensions) (showNum : bool).

Local Abbreviation task := (Scheduler.task format dims showNum).

(** X21.  The pass publishes the entry list once per chunk of
    [BATCH_SIZE] entries, none for an empty list.  The list published
    after chunk number [c] has exactly the entries below index
    [(c + 1) * BATCH_SIZE] processed and the others as they were, and
    the last list published is the list the pass ends with. *)
Theorem snapshots_of_pass :
  exists pass,
    generateBarcodes barcodes format dims showNum = Some pass
    /\ length (snapshots (trace pass)) = chunks (length barcodes)
    /\ (chunks (length barcodes) = 0 <-> barcodes = [])
    /\ (forall c l, snapshots (trace pass) !! c = Some l ->
          forall j, l !! j
                    = if decide (j < (c + 1) * BATCH_SIZE)
                      then task <$> barcodes !! j else barcodes !! j)
    /\ (barcodes <> [] ->
        last (snapshots (trace pass)) = Some (updatedBarcodes pass)).
Proof.
  eexists. split; [apply generateBarcodes_run|].
  cbn [trace updatedBarcodes].
  assert (Hsnap :
    snapshots
      ([SetIsGenerating true; SetProgress (mkProgress 0 (validCount barcodes))]
       ++ concat (chunk_events barcodes format dims showNum
                    <$> seq 0 (chunks (length barcodes)))
       ++ [SetIsGenerating false; SetProgress (mkProgress 0 0)])
    = (fun c => processed barcodes format dims showNum ((c + 1) * BATCH_SIZE))
        <$> seq 0 (chunks (length barcodes))).
  { unfold snapshots. simpl. rewrite omap_app. simpl. rewrite app_nil_r.
    apply snapshots_chunks. }
  rewrite Hsnap.
  assert (Hzero : chunks (length barcodes) = 0 <-> barcodes = []).
  { pose proof (chunks_lt 0 (length barcodes)) as [Hlt1 Hlt2].
    rewrite Nat.mul_0_l in Hlt1, Hlt2.
    split; intros Heq.
    - destruct barcodes as [|b l]; [reflexivity|]. simpl in *.
      assert (0 < chunks (S (length l))) by (apply Hlt1; lia). lia.
    - rewrite Heq in *. simpl in *.
      destruct (Nat.eq_dec (chunks 0) 0) as [Hz|Hz]; [exact Hz|].
      assert (0 < 0) by (apply Hlt2; lia). lia. }
  split; [now rewrite length_fmap, length_seq|].
  split; [exact Hzero|]. split.
  - intros c l Hl j. rewrite list_lookup_fmap in Hl.
    destruct (seq 0 (chunks (length barcodes)) !! c) as [c'|] eqn:Hc;
      [|discriminate].
    apply lookup_seq in Hc as [-> _]. simpl in Hl. injection Hl as <-.
    apply processed_lookup.
  - intros Hne.
    assert (Hpos : 0 < chunks (length barcodes)).
    { destruct (Nat.eq_dec (chunks (length barcodes)) 0) as [Hz|]; [|lia].
      apply Hzero in Hz. contradiction. }
    pose proof (chunks_cover (length barcodes)) as Hcover.
    destruct (chunks (length barcodes)) as [|n]; [lia|].
    rewrite seq_S, fmap_app. simpl. rewrite last_snoc. f_equal.
    apply processed_all. lia.
Qed.

End chunk_snapshots.

Section preview_facts.
Import Mapper Renderer Scheduler Session.
Context `{Host}.
Hypothesis toDataURL_nonempty : forall c, toDataURL c <> "".
Hypothesis outerHTML_nonempty : forall n, outerHTML n <> "".

(** X22.  In every reachable state the preview of an entry is decided
    by its artifact alone: the image when it has a data URL, the inline
    document when it has markup, and otherwise the badge for a valid
    entry while a pass runs, or nothing. *)
Theorem preview_shows_the_artifact (s : State) (widthPx : Z) :
  reachable s ->
  Forall (fun b =>
            View.renderBarcodePreview widthPx (isGenerating s) b
            = match dataUrl b, svgString b with
              | Some url, _ => View.Img url (number b)
              | None, Some markup =>
                  View.SvgPreview markup (Z.min (widthPx * 2) 300)
              | None, None =>
                  if valid b && isGenerating s then View.GeneratingBadge
                  else View.NoPreview
              end)
         (barcodes s).
Proof.
  intros Hs.
  pose proof (reachable_artifacts_nonempty toDataURL_nonempty
                outerHTML_nonempty s Hs) as Hne.
  pose proof (reachable_entries artifact_only_if_valid
                processLine_artifact_only_if_valid
                task_artifact_only_if_valid s Hs) as [Hval _].
  rewrite Forall_forall in *. intros b Hb.
  specialize (Hne b Hb). specialize (Hval b Hb).
  destruct Hne as [Hd Hm]. unfold artifact_only_if_valid in Hval.
  unfold View.renderBarcodePreview.
  destruct (dataUrl b) as [[|c url]|] eqn:Hdu; [congruence| |].
  - rewrite Hval by (left; eauto). reflexivity.
  - destruct (svgString b) as [[|c m]|] eqn:Hsv; [congruence| |].
    + rewrite Hval by (right; eauto). simpl. reflexivity.
    + simpl. rewrite !andb_false_r. reflexivity.
Qed.

End preview_facts.

(* ================================================================== *)
(** * Instances of the further properties *)

Section more_witnesses.
Import Mapper Renderer Scheduler Session Exporter Samples Fixtures.

Lemma sample_toDataURL_nonempty c : sample_toDataURL c <> "".
Proof. unfold sample_toDataURL. simpl. discriminate. Qed.

Lemma sample_outerHTML_nonempty n : sample_outerHTML n <> "".
Proof. unfold sample_outerHTML. simpl. discriminate. Qed.

Lemma clicked_reachable : reachable (H := accepting) clicked.
Proof.
  eapply reachable_step.
  - eapply reachable_step; [apply reachable_initial|].
    apply (step_upload "012345678905").
  - apply (step_generate (H := accepting)
             (handleFileUpload "012345678905" initial) default_dims
             sample_pass);
      [reflexivity|reflexivity| |vm_compute; reflexivity
      |vm_compute; reflexivity].
    apply Nat.ltb_lt. reflexivity.
Qed.

Lemma upload_blank_witness :
  blank (String "032" (String "010" (String "013" (String "010" ""))))
  /\ Validator.processedBarcodes
       (String "032" (String "010" (String "013" (String "010" "")))) = [].
Proof.
  assert (Hb : blank (String "032" (String "010"
                        (String "013" (String "010" "")))))
    by (repeat constructor).
  split; [exact Hb|]. apply upload_blank. exact Hb.
Defined.

Lemma upload_padded_line_witness :
  Validator.processedBarcodes padded_line
  = [mkEntry "012345678905" true None None None].
Proof.
  apply (upload_padded_line "  " "012345678905" (String "013" "")).
  - repeat constructor.
  - repeat constructor.
  - split; eexists; (split; [reflexivity|reflexivity]).
  - intros Hin. vm_compute in Hin. set_solver.
  - intros Hin. vm_compute in Hin. set_solver.
  - intros Hin. vm_compute in Hin. set_solver.
Defined.

Lemma archive_later_entry_wins_witness :
  exportable png rendered_large
  /\ (downloadZip ([rendered_small] ++ rendered_large :: [short]) png).1
       !! "012345678905.png"
     = Some (Base64 (Some "BBBB")).
Proof.
  assert (He : exportable png rendered_large) by (split; reflexivity).
  split; [exact He|].
  apply (archive_later_entry_wins [rendered_small] rendered_large [short] png
           He).
  intros b' Hin [Hv _]. apply list_elem_of_singleton in Hin as ->.
  discriminate Hv.
Defined.

Lemma archive_stores_payload_witness :
  (downloadZip [rendered_small] png).1
  = {[ "012345678905.png" := Base64 (Some "AAAA") ]}.
Proof.
  apply (archive_stores_payload rendered_small "data:image/png;base64" "AAAA");
    [reflexivity|reflexivity| |];
    intros Hin; vm_compute in Hin; set_solver.
Defined.

Lemma export_after_pass_witness :
  exists pass,
    generateBarcodes (H := checking) [good; unchecked; short] svg
                     default_dims true = Some pass
    /\ dom (downloadZip (updatedBarcodes pass) svg).1
       = list_to_set
           ((fun b => number b +:+ "." +:+ extension svg)
              <$> filter (fun b => valid b = true) (updatedBarcodes pass)).
Proof.
  apply (export_after_pass (H := checking)).
  - apply sample_toDataURL_nonempty.
  - apply sample_outerHTML_nonempty.
Defined.

Lemma reachable_entries_well_formed_witness :
  reachable (H := accepting) after_pass
  /\ Forall well_formed (barcodes after_pass).
Proof.
  split; [apply after_pass_reachable|].
  apply (reachable_entries_well_formed (H := accepting)).
  apply after_pass_reachable.
Defined.


Lemma pass_ends_idle_witness :
  reachable (H := accepting) clicked
  /\ pending clicked <> []
  /\ idle (drain (pending clicked) clicked).
Proof.
  split; [apply clicked_reachable|]. split; [vm_compute; discriminate|].
  destruct (pass_ends_idle (H := accepting) clicked clicked_reachable)
    as [Hidle _].
  exact Hidle.
Defined.

Lemma upload_during_pass_is_overwritten_witness :
  snapshots (pending clicked) <> []
  /\ barcodes (drain (pending clicked)
                     (handleFileUpload "123456789012" clicked))
     = [good_rendered].
Proof.
  assert (Hne : snapshots (pending clicked) <> [])
    by (vm_compute; discriminate).
  split; [exact Hne|].
  destruct (upload_during_pass_is_overwritten "123456789012" clicked Hne)
    as [-> _].
  vm_compute. reflexivity.
Defined.

Lemma barcodeOptions_monotone_witness :
  width (barcodeOptions 260 113 true) <= width (barcodeOptions 354 154 true)
  /\ fontSize (barcodeOptions 260 113 true)
     <= fontSize (barcodeOptions 354 154 true)
  /\ height (barcodeOptions 260 113 true)
     <= height (barcodeOptions 354 154 true).
Proof. apply barcodeOptions_monotone; lia. Defined.

Lemma malformed_size_restores_default_witness :
  exists dims,
    dimensions (widthCm (handleWidthChange (H := accepting) "" initial))
               (heightCm (handleWidthChange (H := accepting) "" initial))
    = Some dims
    /\ widthPx dims = 260 /\ heightPx dims = 113.
Proof.
  destruct (malformed_size_restores_default (H := accepting) "" initial
              eq_refl eq_refl) as [Hwidth _].
  exact Hwidth.
Defined.


Lemma preview_shows_the_artifact_witness :
  reachable (H := accepting) after_pass
  /\ View.renderBarcodePreview 260 (isGenerating after_pass) good_rendered
     = View.Img "data:image/png;base64,260x113" "012345678905".
Proof.
  split; [apply after_pass_reachable|].
  pose proof (preview_shows_the_artifact (H := accepting)
                sample_toDataURL_nonempty sample_outerHTML_nonempty
                after_pass 260 after_pass_reachable) as Hall.
  inversion Hall as [|? ? Hhead _]; subst. exact Hhead.
Defined.

End more_witnesses.
